(** * builder-agent: the error monitor and the polling daemon

    A shallow embedding of [src/error-monitor.js] (event log, window count,
    alert threshold with silence period, summary) and of the daemon script
    ([checkRepo], [runCheck], the in-memory [repoState]), together with the
    properties of the alerting and deduplication logic.

    Conventions of the embedding.
    - Instants are integers: milliseconds since the epoch.  The code stores
      them as ISO strings ([toISOString]) and reads them back with
      [new Date(..)]; that round trip is exact at millisecond precision.
    - JavaScript strings are modelled as byte strings ([string]); the two
      agree on ASCII text.
    - A JSON file on disk is [Missing], [Corrupt] (it exists but
      [JSON.parse] throws) or [Stored v], where [v] has the shape the module
      itself writes.
    - Every read of the clock, of [Math.random] and every call into a
      collaborator module is an input of the operation that performs it. *)

From Stdlib Require Import ZArith Lia Ascii String List Bool.
From stdpp Require Import base numbers option list strings gmap sorting.
Import ListNotations.

Local Open Scope string_scope.
Local Open Scope list_scope.
Local Open Scope Z_scope.

(* ===================================================================== *)
(** ** JavaScript values used by both modules *)
(* ===================================================================== *)

Module Js.

(** [x || d] on an optional string: [undefined] and the empty string are
    falsy. *)
Definition or_else (x : option string) (d : string) : string :=
  match x with
  | Some s => if String.eqb s "" then d else s
  | None => d
  end.

(** Truthiness of an optional string ([if (severity)]). *)
Definition truthy_str (x : option string) : bool :=
  match x with
  | Some s => negb (String.eqb s "")
  | None => false
  end.

(** Truthiness of an optional number ([!prevState.pendingDepsPR]). *)
Definition truthy_num (x : option Z) : bool :=
  match x with
  | Some n => negb (n =? 0)
  | None => false
  end.

(** [arr.slice(-n)]: the last [n] elements. *)
Definition slice_last {A} (n : nat) (l : list A) : list A :=
  drop (length l - n)%nat l.

(** [arr.includes(x)] on strings. *)
Definition includes (l : list string) (x : string) : bool :=
  existsb (String.eqb x) l.

(** [parts.join(sep)]. *)
Fixpoint join (sep : string) (parts : list string) : string :=
  match parts with
  | [] => ""
  | [p] => p
  | p :: rest => String.append p (String.append sep (join sep rest))
  end.

(** *** Base64 of a byte string ([Buffer.from(s).toString('base64')]) *)

Definition b64_alphabet : string :=
  "ABCDEFGHIJKLMNOPQRSTUVWXYZabcdefghijklmnopqrstuvwxyz0123456789+/".

Definition b64_char (n : N) : ascii :=
  match String.get (N.to_nat n) b64_alphabet with
  | Some c => c
  | None => "="%char
  end.

Fixpoint b64_bytes (bs : list N) : list ascii :=
  match bs with
  | [] => []
  | [a] =>
      [b64_char (a / 4); b64_char ((a mod 4) * 16); "="%char; "="%char]
  | [a; b] =>
      [b64_char (a / 4); b64_char ((a mod 4) * 16 + b / 16);
       b64_char ((b mod 16) * 4); "="%char]
  | a :: b :: c :: rest =>
      b64_char (a / 4) :: b64_char ((a mod 4) * 16 + b / 16)
      :: b64_char ((b mod 16) * 4 + c / 64) :: b64_char (c mod 64)
      :: b64_bytes rest
  end%N.

Definition base64 (s : string) : string :=
  string_of_list_ascii
    (b64_bytes (List.map N_of_ascii (list_ascii_of_string s))).

(** *** Ordinary objects used as dictionaries

    Own string keys are enumerated ([Object.entries], [for..in]) with the
    canonical array indices first, in ascending numeric order, then the
    other keys in the order they were created.  An object is the list of
    its entries in that order. *)

Definition obj (V : Type) : Type := list (string * V).

Definition is_digit (c : ascii) : bool :=
  let n := N_of_ascii c in ((48 <=? n) && (n <=? 57))%N.

Fixpoint digits_value (acc : N) (s : string) : option N :=
  match s with
  | EmptyString => Some acc
  | String c s' =>
      if is_digit c
      then digits_value (acc * 10 + (N_of_ascii c - 48))%N s'
      else None
  end.

(** [Some n] when [k] is the canonical decimal spelling of an array index
    [n], that is [0 <= n < 2^32 - 1]. *)
Definition array_index (k : string) : option N :=
  match k with
  | EmptyString => None
  | String c rest =>
      if (Ascii.eqb c "0"%char) && negb (String.eqb rest "") then None
      else
        match digits_value 0%N k with
        | Some n => if (n <? 4294967295)%N then Some n else None
        | None => None
        end
  end.

Fixpoint get {V} (o : obj V) (k : string) : option V :=
  match o with
  | [] => None
  | (k', v) :: o' => if String.eqb k k' then Some v else get o' k
  end.

(** Where a new key goes: [append] puts a non-index key last;
    [place_index] puts an index key before the first entry that is not an
    index or is a larger one. *)
Fixpoint place_index {V} (n : N) (k : string) (v : V) (o : obj V) : obj V :=
  match o with
  | [] => [(k, v)]
  | (k', v') :: o' =>
      match array_index k' with
      | Some n' =>
          if (n <? n')%N then (k, v) :: o
          else (k', v') :: place_index n k v o'
      | None => (k, v) :: o
      end
  end.

Fixpoint replace {V} (k : string) (v : V) (o : obj V) : obj V :=
  match o with
  | [] => []
  | (k', v') :: o' =>
      if String.eqb k k' then (k', v) :: o' else (k', v') :: replace k v o'
  end.

(** [o[k] = v]. *)
Definition set {V} (o : obj V) (k : string) (v : V) : obj V :=
  match get o k with
  | Some _ => replace k v o
  | None =>
      match array_index k with
      | Some n => place_index n k v o
      | None => o ++ [(k, v)]
      end
  end.

(** [Object.keys(o)]. *)
Definition keys {V} (o : obj V) : list string := List.map fst o.

(** [Object.entries(o)]. *)
Definition entries {V} (o : obj V) : list (string * V) := o.

(** *** [Array.prototype.sort] with a comparator

    The sort is stable; for a comparator that is a consistent ordering
    every stable sort returns the same array.  It is written here as a
    stable insertion: an element moves past another only when the
    comparator says it belongs strictly after it. *)

Fixpoint sort_insert {A} (cmp : A -> A -> Z) (x : A) (l : list A) : list A :=
  match l with
  | [] => [x]
  | y :: l' => if 0 <? cmp x y then y :: sort_insert cmp x l' else x :: l
  end.

Definition sort {A} (cmp : A -> A -> Z) (l : list A) : list A :=
  foldr (sort_insert cmp) [] l.

End Js.

(** A JSON file on disk. *)
Inductive File (A : Type) : Type :=
| Missing
| Corrupt
| Stored (content : A).
Arguments Missing {A}.
Arguments Corrupt {A}.
Arguments Stored {A} content.

(* ===================================================================== *)
(** ** [src/error-monitor.js] *)
(* ===================================================================== *)

Module ErrorMonitor.

(** One entry of the error log, as [logError] builds it. *)
Record ErrorEntry : Type := {
  id : string;
  timestamp : Z;
  severity : string;
  source : string;
  message : option string;
  stack : option string;
  context : list (string * string);
  fingerprint : string;
  acknowledged : bool;
  acknowledgedAt : option Z
}.

(** The argument of [logError]. *)
Record ErrorInput : Type := {
  in_severity : option string;
  in_source : option string;
  in_message : option string;
  in_stack : option string;
  in_context : option (list (string * string))
}.

(** The configuration object returned by [loadErrorConfig]. *)
Record ErrorConfig : Type := {
  sources : list string;
  alertThreshold : Z;
  windowMinutes : Z;
  silenceMinutes : Z;
  severityFilter : list string;
  slackWebhook : option string;
  emailRecipients : list string;
  extra : list (string * Z)
}.

(** The keys a configuration file may carry; an absent key leaves the
    default in place ([{ ...defaults, ...parsed }]).  [cf_extra] holds the
    keys the module has no default for; the spread copies them too. *)
Record ConfigFile : Type := {
  cf_sources : option (list string);
  cf_alertThreshold : option Z;
  cf_windowMinutes : option Z;
  cf_silenceMinutes : option Z;
  cf_severityFilter : option (list string);
  cf_slackWebhook : option (option string);
  cf_emailRecipients : option (list string);
  cf_extra : list (string * Z)
}.

(** The three files under [data/]. *)
Record Disk : Type := {
  errorsFile : File (list ErrorEntry);
  alertsFile : File (gmap string Z);
  configFile : File ConfigFile
}.

Definition ErrorSeverity_ERROR : string := "error".

Definition defaults : ErrorConfig :=
  {| sources := [];
     alertThreshold := 10;
     windowMinutes := 60;
     silenceMinutes := 15;
     severityFilter := ["error"; "critical"];
     slackWebhook := None;
     emailRecipients := [];
     extra := [] |}.

Definition loadErrorConfig (d : Disk) : ErrorConfig :=
  match configFile d with
  | Stored f =>
      {| sources := default (sources defaults) (cf_sources f);
         alertThreshold := default (alertThreshold defaults) (cf_alertThreshold f);
         windowMinutes := default (windowMinutes defaults) (cf_windowMinutes f);
         silenceMinutes := default (silenceMinutes defaults) (cf_silenceMinutes f);
         severityFilter := default (severityFilter defaults) (cf_severityFilter f);
         slackWebhook := default (slackWebhook defaults) (cf_slackWebhook f);
         emailRecipients := default (emailRecipients defaults) (cf_emailRecipients f);
         extra := cf_extra f |}
  | Missing | Corrupt => defaults
  end.

Definition loadErrors (d : Disk) : list ErrorEntry :=
  match errorsFile d with
  | Stored l => l
  | Missing | Corrupt => []
  end.

(** Keep last 1000 errors. *)
Definition saveErrors (errors : list ErrorEntry) (d : Disk) : Disk :=
  let trimmed := Js.slice_last 1000 errors in
  {| errorsFile := Stored trimmed;
     alertsFile := alertsFile d;
     configFile := configFile d |}.

Definition generateFingerprint (error : ErrorInput) : string :=
  let parts :=
    [ Js.or_else (in_source error) "";
      Js.or_else (option_map (String.substring 0 100) (in_message error)) "";
      Js.or_else (in_severity error) "" ] in
  String.substring 0 16 (Js.base64 (Js.join "|" parts)).

Definition getLastAlert (fp : string) (d : Disk) : option Z :=
  match alertsFile d with
  | Stored alerts => alerts !! fp
  | Missing | Corrupt => None
  end.

(** [recordAlert]; [t] is its reading of the clock. *)
Definition recordAlert (t : Z) (fp : string) (d : Disk) : Disk :=
  let alerts :=
    match alertsFile d with
    | Stored a => a
    | Missing | Corrupt => ∅
    end in
  {| errorsFile := errorsFile d;
     alertsFile := Stored (<[fp := t]> alerts);
     configFile := configFile d |}.

(** One iteration of the reporting loop of [triggerAlert]: the console line
    for a fingerprint and the alert time recorded for it. *)
Record Fired : Type := {
  fired_fp : string;
  fired_sample : option ErrorEntry;
  fired_count : nat;
  fired_at : Z
}.

Definition groupByFingerprint (errors : list ErrorEntry)
  : Js.obj (list ErrorEntry) :=
  fold_left
    (fun byFingerprint error =>
       let fp := fingerprint error in
       match Js.get byFingerprint fp with
       | Some fpErrors => Js.set byFingerprint fp (fpErrors ++ [error])
       | None => Js.set byFingerprint fp [error]
       end)
    errors [].

(** The loop over [Object.entries(byFingerprint)]; [clock k] is the clock
    reading of the [k]-th call of [recordAlert]. *)
Fixpoint alertEach (clock : nat -> Z) (k : nat)
    (groups : list (string * list ErrorEntry)) (d : Disk)
  : Disk * list Fired :=
  match groups with
  | [] => (d, [])
  | (fp, fpErrors) :: rest =>
      let line := {| fired_fp := fp;
                     fired_sample := head fpErrors;
                     fired_count := length fpErrors;
                     fired_at := clock k |} in
      let '(d', fired) := alertEach clock (S k) rest (recordAlert (clock k) fp d) in
      (d', line :: fired)
  end.

Definition triggerAlert (clock : nat -> Z) (errors : list ErrorEntry)
    (config : ErrorConfig) (d : Disk) : Disk * list Fired :=
  alertEach clock 0 (Js.entries (groupByFingerprint errors)) d.

Definition recentErrors (config : ErrorConfig) (now : Z)
    (errors : list ErrorEntry) : list ErrorEntry :=
  let windowStart := now - windowMinutes config * 60 * 1000 in
  List.filter
    (fun e => (windowStart <=? timestamp e)
              && Js.includes (severityFilter config) (severity e))
    errors.

(** The silence test of [checkAlertThreshold] on the value returned by
    [getLastAlert]. *)
Definition outOfSilence (config : ErrorConfig) (now : Z)
    (lastAlert : option Z) : bool :=
  match lastAlert with
  | None => true
  | Some t => silenceMinutes config * 60 * 1000 <? now - t
  end.

(** [checkAlertThreshold]; [None] when [triggerAlert] is not called. *)
Definition checkAlertThreshold (now : Z) (clock : nat -> Z)
    (newError : ErrorEntry) (d : Disk) : Disk * option (list Fired) :=
  let config := loadErrorConfig d in
  let errors := loadErrors d in
  let recent := recentErrors config now errors in
  if alertThreshold config <=? Z.of_nat (length recent) then
    let lastAlert := getLastAlert (fingerprint newError) d in
    if outOfSilence config now lastAlert then
      let '(d', fired) := triggerAlert clock recent config d in
      (d', Some fired)
    else (d, None)
  else (d, None).

(** What one call of [logError] reads from its environment: the id string
    (from [Date.now()] and [Math.random()]), the clock for the entry's
    timestamp, the clock in [checkAlertThreshold], and the clock of each
    [recordAlert]. *)
Record LogEnv : Type := {
  env_id : string;
  env_stamp : Z;
  env_now : Z;
  env_record : nat -> Z
}.

Definition makeEntry (env : LogEnv) (error : ErrorInput) : ErrorEntry :=
  {| id := env_id env;
     timestamp := env_stamp env;
     severity := Js.or_else (in_severity error) ErrorSeverity_ERROR;
     source := Js.or_else (in_source error) "unknown";
     message := in_message error;
     stack := in_stack error;
     context := default [] (in_context error);
     fingerprint := generateFingerprint error;
     acknowledged := false;
     acknowledgedAt := None |}.

Definition logError (env : LogEnv) (error : ErrorInput) (d : Disk)
  : ErrorEntry * Disk * option (list Fired) :=
  let errors := loadErrors d in
  let entry := makeEntry env error in
  let d1 := saveErrors (errors ++ [entry]) d in
  let '(d2, fired) := checkAlertThreshold (env_now env) (env_record env) entry d1 in
  (entry, d2, fired).

(** [acknowledgeError]: the first entry with the id is updated in place. *)
Definition acknowledge (t : Z) (e : ErrorEntry) : ErrorEntry :=
  {| id := id e; timestamp := timestamp e; severity := severity e;
     source := source e; message := message e; stack := stack e;
     context := context e; fingerprint := fingerprint e;
     acknowledged := true; acknowledgedAt := Some t |}.

Fixpoint ackFirst (t : Z) (errorId : string) (errors : list ErrorEntry)
  : option (ErrorEntry * list ErrorEntry) :=
  match errors with
  | [] => None
  | e :: rest =>
      if String.eqb (id e) errorId
      then Some (acknowledge t e, acknowledge t e :: rest)
      else match ackFirst t errorId rest with
           | Some (a, rest') => Some (a, e :: rest')
           | None => None
           end
  end.

Definition acknowledgeError (t : Z) (errorId : string) (d : Disk)
  : option ErrorEntry * Disk :=
  match ackFirst t errorId (loadErrors d) with
  | Some (error, errors) => (Some error, saveErrors errors d)
  | None => (None, d)
  end.

(** *** [getErrorSummary] *)

Record SummaryOptions : Type := {
  opt_hours : option Z;
  opt_severity : option string;
  opt_source : option string
}.

Record TopError : Type := {
  top_fingerprint : string;
  top_count : Z;
  top_sample : option ErrorEntry
}.

Record Summary : Type := {
  totalErrors : nat;
  period_hours : Z;
  period_from : Z;
  bySeverity : Js.obj Z;
  bySource : Js.obj Z;
  topErrors : list TopError;
  summary_timestamp : Z
}.

(** [o[k] = (o[k] || 0) + 1]. *)
Definition bump (o : Js.obj Z) (k : string) : Js.obj Z :=
  Js.set o k (default 0 (Js.get o k) + 1).

Definition tally (keys : list string) : Js.obj Z :=
  fold_left bump keys [].

Definition summaryFilter (options : SummaryOptions) (now : Z)
    (errors : list ErrorEntry) : list ErrorEntry :=
  let hours := default 24 (opt_hours options) in
  let cutoff := now - hours * 60 * 60 * 1000 in
  let filtered := List.filter (fun e => cutoff <=? timestamp e) errors in
  let filtered :=
    if Js.truthy_str (opt_severity options)
    then List.filter (fun e => String.eqb (severity e) (default "" (opt_severity options))) filtered
    else filtered in
  if Js.truthy_str (opt_source options)
  then List.filter (fun e => String.eqb (source e) (default "" (opt_source options))) filtered
  else filtered.

(** The comparator [(a, b) => b[1] - a[1]]. *)
Definition byCountDesc (a b : string * Z) : Z := snd b - snd a.

Definition topOf (filtered : list ErrorEntry) (byFingerprint : Js.obj Z)
  : list TopError :=
  List.map
    (fun '(fp, count) =>
       {| top_fingerprint := fp;
          top_count := count;
          top_sample := List.find (fun e => String.eqb (fingerprint e) fp) filtered |})
    (take 5 (Js.sort byCountDesc (Js.entries byFingerprint))).

(** [now] is the reading of [Date.now()], [stamp] that of the final
    [new Date()]. *)
Definition getErrorSummary (now stamp : Z) (options : SummaryOptions)
    (d : Disk) : Summary :=
  let errors := loadErrors d in
  let hours := default 24 (opt_hours options) in
  let filtered := summaryFilter options now errors in
  {| totalErrors := length filtered;
     period_hours := hours;
     period_from := now - hours * 60 * 60 * 1000;
     bySeverity := tally (List.map severity filtered);
     bySource := tally (List.map source filtered);
     topErrors := topOf filtered (tally (List.map fingerprint filtered));
     summary_timestamp := stamp |}.

End ErrorMonitor.

(* ===================================================================== *)
(** ** The daemon script: [checkRepo], [runCheck], [repoState] *)
(* ===================================================================== *)

Module Daemon.

(** The result of awaiting a collaborator: a value, or a thrown error with
    its message. *)
Inductive outcome (A : Type) : Type :=
| Returns (a : A)
| Throws (msg : string).
Arguments Returns {A} a.
Arguments Throws {A} msg.

Record Failure : Type := { runId : Z; name : string }.

Record Update : Type := {
  package : string;
  updateType : string;
  shouldAutoUpdate : bool
}.

(** [scanDependencies] returns no [autoUpdates] key when there is no
    package.json. *)
Record DepsScan : Type := { autoUpdates : option (list Update) }.

Record PullRequest : Type := { number : Z }.

Record ReleaseCheck : Type := { needed : bool; reason : string }.

(** The parts of [config] the daemon reads. *)
Record Config : Type := {
  targetRepos : list string;
  autoUpdate_minor : bool;
  autoUpdate_patch : bool
}.

(** The value kept per repository in [repoState]; a field that was never
    assigned is [None] (or [false] for the flag). *)
Record RepoState : Type := {
  failedBuilds : option nat;
  pendingDepsPR : option Z;
  releaseNotified : bool;
  repo_lastCheck : option Z
}.

(** [{}] *)
Definition emptyState : RepoState :=
  {| failedBuilds := None; pendingDepsPR := None;
     releaseNotified := false; repo_lastCheck := None |}.

(** The module-level variables. *)
Record State : Type := {
  isRunning : bool;
  checkCount : nat;
  lastCheck : option Z;
  repoState : gmap string RepoState
}.

Definition initial : State :=
  {| isRunning := false; checkCount := 0; lastCheck := None; repoState := ∅ |}.

(** What one call of [checkRepo] gets from the collaborators it awaits.
    [getRepoStatus] is reduced to [status.failedBuilds], the length of an
    array.  The notify functions catch their own errors (notify.js) and
    are not listed: they cannot throw. *)
Record PollEnv : Type := {
  getRepoStatus : outcome nat;
  getFailedBuildDetails : outcome (list Failure);
  scanDependencies : outcome DepsScan;
  createDependencyUpdatePR : outcome (option PullRequest);
  isReleaseNeeded : outcome ReleaseCheck;
  clock : Z
}.

(** Calls into collaborators and console lines, in program order. *)
Inductive Effect : Type :=
| CallGetRepoStatus (repo : string)
| CallGetFailedBuildDetails (repo : string)
| LogBuildFailed (repo : string) (failure : Failure)
| CallNotifyBuildFailure (repo : string) (failure : Failure)
| CallScanDependencies (repo : string)
| LogAutoUpdatable (repo : string) (n : nat)
| LogCreatingPR (repo : string)
| CallCreateDependencyUpdatePR (repo : string) (updates : list Update)
| LogCreatedPR (repo : string) (pr : Z)
| CallNotifyDependencyUpdate (repo : string) (pr : Z)
| LogPRSkipped (repo : string) (msg : string)
| CallIsReleaseNeeded (repo : string)
| LogReleaseNeeded (repo : string) (why : string)
| LogError (repo : string) (msg : string)
| LogStillRunning
| LogCheckStart (n : nat)
| LogCheckComplete (successful total : nat).

(** *** The body of [checkRepo] as a computation

    The body threads the object [prevState], which it mutates, and the
    trace; a thrown error ends it but keeps both. *)

Record Local : Type := { prevState : RepoState; trace : list Effect }.

Definition M (A : Type) : Type := Local -> outcome A * Local.

Definition ret {A} (a : A) : M A := fun s => (Returns a, s).

Definition bind {A B} (m : M A) (k : A -> M B) : M B :=
  fun s =>
    match m s with
    | (Returns a, s') => k a s'
    | (Throws msg, s') => (Throws msg, s')
    end.

Notation "'let*' x ':=' m 'in' k" := (bind m (fun x => k))
  (at level 10, x name, m at level 100, k at level 200).
Notation "m '>>' k" := (bind m (fun _ => k))
  (at level 100, k at level 200, right associativity).

Definition emit (e : Effect) : M unit :=
  fun s => (Returns tt, {| prevState := prevState s; trace := trace s ++ [e] |}).

(** [await f(..)]: the call is traced, then its outcome is delivered. *)
Definition await {A} (e : Effect) (o : outcome A) : M A :=
  emit e >> (fun s => (o, s)).

Definition getPrev : M RepoState := fun s => (Returns (prevState s), s).

Definition assign (f : RepoState -> RepoState) : M unit :=
  fun s => (Returns tt, {| prevState := f (prevState s); trace := trace s |}).

(** [try { body } catch (error) { handler(error.message) }] *)
Definition tryCatch (body : M unit) (handler : string -> M unit) : M unit :=
  fun s =>
    match body s with
    | (Returns a, s') => (Returns a, s')
    | (Throws msg, s') => handler msg s'
    end.

Definition set_pendingDepsPR (n : Z) (p : RepoState) : RepoState :=
  {| failedBuilds := failedBuilds p; pendingDepsPR := Some n;
     releaseNotified := releaseNotified p; repo_lastCheck := repo_lastCheck p |}.

Definition set_releaseNotified (p : RepoState) : RepoState :=
  {| failedBuilds := failedBuilds p; pendingDepsPR := pendingDepsPR p;
     releaseNotified := true; repo_lastCheck := repo_lastCheck p |}.

(** [status.failedBuilds !== prevState.failedBuilds] *)
Definition differs (current : nat) (previous : option nat) : bool :=
  match previous with
  | Some m => negb (current =? m)%nat
  | None => true
  end.

Fixpoint notifyEach (repo : string) (failures : list Failure) : M unit :=
  match failures with
  | [] => ret tt
  | failure :: rest =>
      emit (LogBuildFailed repo failure) >>
      emit (CallNotifyBuildFailure repo failure) >>
      notifyEach repo rest
  end.

(** Check for new build failures. *)
Definition checkBuilds (env : PollEnv) (repo : string) (failed : nat) : M unit :=
  let* prev := getPrev in
  if (0 <? failed)%nat && differs failed (failedBuilds prev) then
    let* failures := await (CallGetFailedBuildDetails repo) (getFailedBuildDetails env) in
    notifyEach repo (take 3 failures)
  else ret tt.

Definition eligible (config : Config) (u : Update) : bool :=
  (String.eqb (updateType u) "minor" && autoUpdate_minor config)
  || (String.eqb (updateType u) "patch" && autoUpdate_patch config).

(** Check for outdated dependencies (every 4th check). *)
Definition checkDeps (config : Config) (env : PollEnv) (count : nat)
    (repo : string) : M unit :=
  if (count mod 4 =? 0)%nat then
    let* deps := await (CallScanDependencies repo) (scanDependencies env) in
    match autoUpdates deps with
    | Some (u :: us) =>
        emit (LogAutoUpdatable repo (length (u :: us))) >>
        if autoUpdate_minor config || autoUpdate_patch config then
          let updates := List.filter (eligible config) (u :: us) in
          let* prev := getPrev in
          if (0 <? length updates)%nat && negb (Js.truthy_num (pendingDepsPR prev)) then
            emit (LogCreatingPR repo) >>
            tryCatch
              (let* pr := await (CallCreateDependencyUpdatePR repo updates)
                                (createDependencyUpdatePR env) in
               match pr with
               | Some pr =>
                   emit (LogCreatedPR repo (number pr)) >>
                   emit (CallNotifyDependencyUpdate repo (number pr)) >>
                   assign (set_pendingDepsPR (number pr))
               | None => ret tt
               end)
              (fun msg => emit (LogPRSkipped repo msg))
          else ret tt
        else ret tt
    | Some [] | None => ret tt
    end
  else ret tt.

(** Check if release is needed. *)
Definition checkRelease (env : PollEnv) (repo : string) : M unit :=
  let* releaseCheck := await (CallIsReleaseNeeded repo) (isReleaseNeeded env) in
  let* prev := getPrev in
  if needed releaseCheck && negb (releaseNotified prev) then
    emit (LogReleaseNeeded repo (reason releaseCheck)) >>
    assign set_releaseNotified
  else ret tt.

(** The [try] block of [checkRepo]; it returns [status.failedBuilds]. *)
Definition checkRepoBody (config : Config) (env : PollEnv) (count : nat)
    (repo : string) : M nat :=
  let* failed := await (CallGetRepoStatus repo) (getRepoStatus env) in
  checkBuilds env repo failed >>
  checkDeps config env count repo >>
  checkRelease env repo >>
  ret failed.

Inductive CheckResult : Type :=
| Success (failed : nat)
| Failed (error : string).

Definition succeeded (r : CheckResult) : bool :=
  match r with Success _ => true | Failed _ => false end.

(** [checkRepo].  [prevState] is the object stored in [repoState] when
    there is one, so what the body assigned to it stays in the map even
    when the body throws before [repoState.set]; when there is none it is
    a fresh object, which is dropped in that case. *)
Definition checkRepo (config : Config) (env : PollEnv) (repoFullName : string)
    (st : State) : State * CheckResult * list Effect :=
  let stored := repoState st !! repoFullName in
  let prev := default emptyState stored in
  match checkRepoBody config env (checkCount st) repoFullName
          {| prevState := prev; trace := [] |} with
  | (Returns failed, l) =>
      let next :=
        {| failedBuilds := Some failed;
           pendingDepsPR := pendingDepsPR (prevState l);
           releaseNotified := releaseNotified (prevState l);
           repo_lastCheck := Some (clock env) |} in
      ({| isRunning := isRunning st; checkCount := checkCount st;
          lastCheck := lastCheck st;
          repoState := <[repoFullName := next]> (repoState st) |},
       Success failed, trace l)
  | (Throws msg, l) =>
      ({| isRunning := isRunning st; checkCount := checkCount st;
          lastCheck := lastCheck st;
          repoState :=
            match stored with
            | Some _ => <[repoFullName := prevState l]> (repoState st)
            | None => repoState st
            end |},
       Failed msg, trace l ++ [LogError repoFullName msg])
  end.

(** *** [runCheck] and the scheduler

    [runCheck] is an async function: a call runs until its first [await]
    and is resumed later.  The system is the module state and the calls of
    [runCheck] that are suspended in their loop, each with the targets it
    still has to check.  A call is resumed one target at a time: nothing
    else in the script writes a variable that [checkRepo] reads or writes,
    and [checkRepo] never touches [isRunning]. *)

Record Cycle : Type := {
  remaining : list string;
  results : list (string * CheckResult)
}.

Record System : Type := {
  state : State;
  cycles : list Cycle
}.

Definition boot : System := {| state := initial; cycles := [] |}.

Inductive Label : Type :=
| Tick (now : Z)                       (* the timer calls [runCheck] *)
| Resume (i : nat) (env : PollEnv) (now : Z).  (* the i-th suspended call goes on *)

(** The end of [runCheck]: the summary line, [lastCheck], and the flag. *)
Definition finish (now : Z) (results : list (string * CheckResult))
    (st : State) : State * list Effect :=
  ({| isRunning := false; checkCount := checkCount st;
      lastCheck := Some now; repoState := repoState st |},
   [LogCheckComplete
      (length (List.filter (fun r => succeeded (snd r)) results))
      (length results)]).

Definition step (config : Config) (l : Label) (s : System)
  : System * list Effect :=
  match l with
  | Tick now =>
      if isRunning (state s) then (s, [LogStillRunning])
      else
        let st := {| isRunning := true;
                     checkCount := S (checkCount (state s));
                     lastCheck := lastCheck (state s);
                     repoState := repoState (state s) |} in
        match targetRepos config with
        | [] =>
            let '(st', out) := finish now [] st in
            ({| state := st'; cycles := cycles s |},
             LogCheckStart (checkCount st) :: out)
        | _ :: _ =>
            ({| state := st;
                cycles := cycles s ++
                  [{| remaining := targetRepos config; results := [] |}] |},
             [LogCheckStart (checkCount st)])
        end
  | Resume i env now =>
      match cycles s !! i with
      | Some {| remaining := repo :: rest; results := done |} =>
          let '(st, result, out) := checkRepo config env repo (state s) in
          let done' := done ++ [(repo, result)] in
          match rest with
          | [] =>
              let '(st', out') := finish now done' st in
              ({| state := st'; cycles := delete i (cycles s) |}, out ++ out')
          | _ :: _ =>
              ({| state := st;
                  cycles := <[i := {| remaining := rest; results := done' |}]> (cycles s) |},
               out)
          end
      | Some {| remaining := []; results := _ |} | None => (s, [])
      end
  end.

Fixpoint run (config : Config) (ls : list Label) (s : System)
  : System * list Effect :=
  match ls with
  | [] => (s, [])
  | l :: ls' =>
      let '(s1, out1) := step config l s in
      let '(s2, out2) := run config ls' s1 in
      (s2, out1 ++ out2)
  end.

(** *** Conditions read off the trace *)

Definition is_buildFailure (repo : string) (e : Effect) : bool :=
  match e with
  | CallGetFailedBuildDetails r => String.eqb r repo
  | _ => false
  end.

Definition is_createPR (repo : string) (e : Effect) : bool :=
  match e with
  | CallCreateDependencyUpdatePR r _ => String.eqb r repo
  | _ => false
  end.

Definition is_openedPR (repo : string) (e : Effect) : bool :=
  match e with
  | LogCreatedPR r _ => String.eqb r repo
  | _ => false
  end.

Definition is_releaseNeeded (repo : string) (e : Effect) : bool :=
  match e with
  | LogReleaseNeeded r _ => String.eqb r repo
  | _ => false
  end.

(** The poll found a new build-failure condition: it entered the branch
    that fetches the failed builds and notifies them. *)
Definition newBuildFailure (repo : string) (out : list Effect) : bool :=
  existsb (is_buildFailure repo) out.

(** The poll went to open a dependency-update pull request. *)
Definition newDepsPR (repo : string) (out : list Effect) : bool :=
  existsb (is_createPR repo) out.

(** The poll announced that a release may be needed. *)
Definition newRelease (repo : string) (out : list Effect) : bool :=
  existsb (is_releaseNeeded repo) out.

Definition storedFailedBuilds (st : State) (repo : string) : option nat :=
  failedBuilds (default emptyState (repoState st !! repo)).

Definition storedPendingPR (st : State) (repo : string) : option Z :=
  pendingDepsPR (default emptyState (repoState st !! repo)).

Definition storedReleaseNotified (st : State) (repo : string) : bool :=
  releaseNotified (default emptyState (repoState st !! repo)).

End Daemon.


(* ===================================================================== *)
(** ** The process: what is on disk and what is in memory *)
(* ===================================================================== *)

Module Process.

(** The error monitor keeps everything in the files under [data/]; the
    daemon keeps everything in module variables. *)
Record Process : Type := {
  disk : ErrorMonitor.Disk;
  memory : Daemon.System
}.

(** The process is stopped and started again: the files are what they were,
    the module variables are initialised afresh. *)
Definition restart (p : Process) : Process :=
  {| disk := disk p; memory := Daemon.boot |}.

Inductive Op : Type :=
| OpLogError (env : ErrorMonitor.LogEnv) (error : ErrorMonitor.ErrorInput)
| OpDaemon (l : Daemon.Label).

(** What the operator sees of one operation. *)
Inductive Seen : Type :=
| SeenAlerts (fired : option (list ErrorMonitor.Fired))
| SeenPoll (out : list Daemon.Effect).

Definition exec (config : Daemon.Config) (op : Op) (p : Process)
  : Process * Seen :=
  match op with
  | OpLogError env error =>
      let '(_, d, fired) := ErrorMonitor.logError env error (disk p) in
      ({| disk := d; memory := memory p |}, SeenAlerts fired)
  | OpDaemon l =>
      let '(m, out) := Daemon.step config l (memory p) in
      ({| disk := disk p; memory := m |}, SeenPoll out)
  end.

Fixpoint execAll (config : Daemon.Config) (ops : list Op) (p : Process)
  : Process * list Seen :=
  match ops with
  | [] => (p, [])
  | op :: rest =>
      let '(p1, seen) := exec config op p in
      let '(p2, seens) := execAll config rest p1 in
      (p2, seen :: seens)
  end.

(** The daemon's effects among what was seen. *)
Definition pollsOf (seens : list Seen) : list Daemon.Effect :=
  flat_map (fun s => match s with SeenAlerts _ => [] | SeenPoll out => out end) seens.

(** The alert decisions among what was seen. *)
Definition alertsOf (seens : list Seen) : list (option (list ErrorMonitor.Fired)) :=
  omap (fun s => match s with SeenAlerts f => Some f | SeenPoll _ => None end) seens.

End Process.

(* ===================================================================== *)
(** ** Sample data used by the examples *)
(* ===================================================================== *)

Module Samples.
Import ErrorMonitor.

(** A configuration file that lowers the threshold to 2 and leaves the
    window (60 minutes) and the silence period (15 minutes) at their
    defaults. *)
Definition thresholdTwo : ConfigFile :=
  {| cf_sources := None; cf_alertThreshold := Some 2;
     cf_windowMinutes := None; cf_silenceMinutes := None;
     cf_severityFilter := None; cf_slackWebhook := None;
     cf_emailRecipients := None; cf_extra := [] |}.

Definition freshDisk : Disk :=
  {| errorsFile := Missing; alertsFile := Missing;
     configFile := Stored thresholdTwo |}.

Definition report (src msg : string) : ErrorInput :=
  {| in_severity := Some "error"; in_source := Some src;
     in_message := Some msg; in_stack := None; in_context := None |}.

Definition apiTimeout : ErrorInput := report "api" "timeout".
Definition dbDown : ErrorInput := report "db" "down".

(** Every clock reading of the call returns [t]. *)
Definition at_ (i : string) (t : Z) : LogEnv :=
  {| env_id := i; env_stamp := t; env_now := t; env_record := fun _ => t |}.

(** Two reports of the api timeout, one second apart. *)
Definition afterFirst : Disk := (logError (at_ "e1" 0) apiTimeout freshDisk).1.2.
Definition secondCall := logError (at_ "e2" 1000) apiTimeout afterFirst.
(** One second later the database goes down. *)
Definition thirdCall := logError (at_ "e3" 2000) dbDown secondCall.1.2.

Definition firedAt (fp : string) (fired : option (list Fired)) : list Z :=
  List.map fired_at
    (List.filter (fun f => String.eqb (fired_fp f) fp) (default [] fired)).

(** One report of each kind, the database one being the later. *)
Definition oneEach : Disk :=
  (logError (at_ "e2" 1000) dbDown afterFirst).1.2.

Definition noOptions : SummaryOptions :=
  {| opt_hours := None; opt_severity := None; opt_source := None |}.

End Samples.


Module DaemonSamples.
Import Daemon.

Definition oneRepo : Config :=
  {| targetRepos := ["o/r"]; autoUpdate_minor := true; autoUpdate_patch := true |}.

Definition lodashPatch : Update :=
  {| package := "lodash"; updateType := "patch"; shouldAutoUpdate := true |}.

Definition featuresSinceRelease : outcome ReleaseCheck :=
  Returns {| needed := true; reason := "2 feature/fix commits since v1.0.0" |}.

(** A poll that sees [failed] failed builds, one patch update, a pull
    request opened under number [pr], and the given release check. *)
Definition sees (failed : nat) (pr : Z) (release : outcome ReleaseCheck) : PollEnv :=
  {| getRepoStatus := Returns failed;
     getFailedBuildDetails := Returns [{| runId := 1; name := "ci" |}];
     scanDependencies := Returns {| autoUpdates := Some [lodashPatch] |};
     createDependencyUpdatePR := Returns (Some {| number := pr |});
     isReleaseNeeded := release;
     clock := 5 |}.

(** A poll in which every collaborator throws. *)
Definition unreachable : PollEnv :=
  {| getRepoStatus := Throws "ECONNRESET";
     getFailedBuildDetails := Throws "ECONNRESET";
     scanDependencies := Throws "ECONNRESET";
     createDependencyUpdatePR := Throws "ECONNRESET";
     isReleaseNeeded := Throws "ECONNRESET";
     clock := 5 |}.

(** One timer tick followed by the poll of the only repository. *)
Definition cycle (env : PollEnv) : list Label := [Tick 0; Resume 0 env 1].

(** Three cycles with GitHub unreachable, then a cycle (the 4th, so
    dependencies are scanned) that opens pull request [pr] and then fails in
    the release check. *)
Definition outageThenPR (pr : Z) : list Label :=
  cycle unreachable ++ cycle unreachable ++ cycle unreachable
  ++ cycle (sees 0 pr (Throws "ETIMEDOUT")).

Definition openedPRs (repo : string) (out : list Effect) : list Z :=
  omap (fun e => match e with
                 | LogCreatedPR r n => if String.eqb r repo then Some n else None
                 | _ => None
                 end) out.

End DaemonSamples.

(* ===================================================================== *)
(** ** Vocabulary of the properties *)
(* ===================================================================== *)

Module Notions.
Import ErrorMonitor.

(** How often [k] occurs in [l]. *)
Definition occurrences (k : string) (l : list string) : nat :=
  length (List.filter (String.eqb k) l).

(** The distinct elements of [l] that are not in [seen], in the order of
    their first occurrence. *)
Fixpoint firstSeen (seen l : list string) : list string :=
  match l with
  | [] => []
  | k :: rest =>
      if Js.includes seen k then firstSeen seen rest
      else k :: firstSeen (seen ++ [k]) rest
  end.

(** An alert for [fp] is among those fired. *)
Definition firesFor (fp : string) (fired : option (list Fired)) : bool :=
  existsb (fun f => String.eqb (fired_fp f) fp) (default [] fired).


(** A file that cannot be loaded. *)
Definition unreadable {A} (f : File A) : Prop := f = Missing \/ f = Corrupt.

(** The time of the latest event carrying [fp] (0 when there is none). *)
Definition lastSeen (fp : string) (events : list ErrorEntry) : Z :=
  foldr (fun e m => if String.eqb (fingerprint e) fp
                    then Z.max (timestamp e) m else m) 0 events.

(** Among entries with equal counts, the one whose fingerprint has the most
    recent event comes first. *)
Definition tiesMostRecentFirst (events : list ErrorEntry)
    (top : list TopError) : Prop :=
  forall (i j : nat) (a b : TopError),
    (i < j)%nat -> top !! i = Some a -> top !! j = Some b ->
    top_count a = top_count b ->
    lastSeen (top_fingerprint b) events <= lastSeen (top_fingerprint a) events.

(** The pair the sort works on. *)
Definition entryOf (t : TopError) : string * Z := (top_fingerprint t, top_count t).

Definition hasCount (c : Z) (kc : string * Z) : bool := snd kc =? c.

(** Descending order of counts. *)
Definition countDesc (a b : string * Z) : Prop := snd b <= snd a.
Definition topDesc (a b : TopError) : Prop := top_count b <= top_count a.

(** No effect of the class [p] occurs in [out], whatever the repository. *)
Definition silentOn (p : string -> Daemon.Effect -> bool)
    (out : list Daemon.Effect) : Prop :=
  forall r, existsb (p r) out = false.

(** The suspended call of [runCheck] is resumed once with each of the given
    poll results. *)
Definition resumes (polls : list (Daemon.PollEnv * Z)) : list Daemon.Label :=
  List.map (fun '(env, now) => Daemon.Resume 0 env now) polls.

(** The flag and the suspended calls agree: no call is suspended and the
    flag is clear, or exactly one is, with targets left, and the flag is
    set. *)
Definition consistent (s : Daemon.System) : Prop :=
  match Daemon.cycles s with
  | [] => Daemon.isRunning (Daemon.state s) = false
  | [c] => Daemon.isRunning (Daemon.state s) = true /\ Daemon.remaining c <> []
  | _ :: _ :: _ => False
  end.

End Notions.

(* ===================================================================== *)
(** ** [src/error-monitor.js]: the remaining operations *)
(* ===================================================================== *)

Module ErrorMonitorMore.
Import ErrorMonitor.

(** [arr.slice(start)] for an integer [start]: a negative start counts from
    the end, and a start of 0 (which is what [-0] is) keeps everything. *)
Definition slice_from {A} (start : Z) (l : list A) : list A :=
  if start <? 0
  then drop (Z.to_nat (Z.max (Z.of_nat (length l) + start) 0)) l
  else drop (Z.to_nat start) l.

(** The options of [getUnacknowledgedErrors]: [severity = null],
    [limit = 20]. *)
Record UnackOptions : Type := {
  unack_severity : option string;
  unack_limit : option Z
}.

Definition getUnacknowledgedErrors (options : UnackOptions) (d : Disk)
  : list ErrorEntry :=
  let limit := default 20 (unack_limit options) in
  let errors := List.filter (fun e => negb (acknowledged e)) (loadErrors d) in
  let errors :=
    if Js.truthy_str (unack_severity options)
    then List.filter
           (fun e => String.eqb (severity e) (default "" (unack_severity options)))
           errors
    else errors in
  slice_from (- limit) errors.

(** [saveErrorConfig]: the object is written as it is; a key it does not
    have is not in the file. *)
Definition saveErrorConfig (config : ConfigFile) (d : Disk) : Disk :=
  {| errorsFile := errorsFile d;
     alertsFile := alertsFile d;
     configFile := Stored config |}.

(** A configuration as [loadErrorConfig] returns it, seen as the object
    handed to [saveErrorConfig]: every key is present. *)
Definition complete (config : ErrorConfig) : ConfigFile :=
  {| cf_sources := Some (sources config);
     cf_alertThreshold := Some (alertThreshold config);
     cf_windowMinutes := Some (windowMinutes config);
     cf_silenceMinutes := Some (silenceMinutes config);
     cf_severityFilter := Some (severityFilter config);
     cf_slackWebhook := Some (slackWebhook config);
     cf_emailRecipients := Some (emailRecipients config);
     cf_extra := extra config |}.


(** The events of a list that carry the fingerprint [fp], in order. *)
Definition carrying (fp : string) (errors : list ErrorEntry) : list ErrorEntry :=
  List.filter (fun e => String.eqb (fingerprint e) fp) errors.

End ErrorMonitorMore.

(* ===================================================================== *)
(** ** The daemon script: the status line, and words for its traces *)
(* ===================================================================== *)

Module DaemonMore.
Import Daemon.

(** [showStatus]: the hours and minutes printed for an uptime in seconds
    ([Math.floor(process.uptime())]). *)
Definition uptimeHours (uptime : Z) : Z := uptime / 3600.
Definition uptimeMins (uptime : Z) : Z := (uptime mod 3600) / 60.

(** The local state at the start of a phase: [prevState] and no trace. *)
Definition fresh (p : RepoState) : Local := {| prevState := p; trace := [] |}.

(** A computation that reads only [prevState] and only appends to the
    trace: started on any local state it does what it does on the fresh
    one, after the trace that was there. *)
Definition appendsOnly {A} (m : M A) : Prop :=
  forall s,
    m s = ((m (fresh (prevState s))).1,
           {| prevState := prevState (m (fresh (prevState s))).2;
              trace := trace s ++ trace (m (fresh (prevState s))).2 |}).

(** What [notifyEach] appends for a list of failures. *)
Definition notifyTrace (repo : string) (failures : list Failure) : list Effect :=
  flat_map (fun f => [LogBuildFailed repo f; CallNotifyBuildFailure repo f]) failures.

(** The repository an effect is about. *)
Definition repoOf (e : Effect) : option string :=
  match e with
  | CallGetRepoStatus r | CallGetFailedBuildDetails r | LogBuildFailed r _
  | CallNotifyBuildFailure r _ | CallScanDependencies r | LogAutoUpdatable r _
  | LogCreatingPR r | CallCreateDependencyUpdatePR r _ | LogCreatedPR r _
  | CallNotifyDependencyUpdate r _ | LogPRSkipped r _ | CallIsReleaseNeeded r
  | LogReleaseNeeded r _ | LogError r _ => Some r
  | LogStillRunning | LogCheckStart _ | LogCheckComplete _ _ => None
  end.

Definition is_notifyBuild (e : Effect) : bool :=
  match e with CallNotifyBuildFailure _ _ => true | _ => false end.

Definition is_statusCall (e : Effect) : bool :=
  match e with CallGetRepoStatus _ => true | _ => false end.

Definition is_depsEffect (e : Effect) : bool :=
  match e with
  | CallScanDependencies _ | LogAutoUpdatable _ _ | LogCreatingPR _
  | CallCreateDependencyUpdatePR _ _ | LogCreatedPR _ _
  | CallNotifyDependencyUpdate _ _ | LogPRSkipped _ _ => true
  | _ => false
  end.

(** The repositories whose status was fetched, in order. *)
Definition polled (out : list Effect) : list string :=
  omap (fun e => match e with CallGetRepoStatus r => Some r | _ => None end) out.

(** The update lists handed to [createDependencyUpdatePR]. *)
Definition prRequests (out : list Effect) : list (list Update) :=
  omap (fun e => match e with
                 | CallCreateDependencyUpdatePR _ updates => Some updates
                 | _ => None
                 end) out.

End DaemonMore.

Module MoreSamples.
Import Daemon.

(** Five failed runs behind a count of 5. *)
Definition fiveFailures : PollEnv :=
  {| getRepoStatus := Returns 5%nat;
     getFailedBuildDetails :=
       Returns [{| runId := 1; name := "ci" |}; {| runId := 2; name := "lint" |};
                {| runId := 3; name := "e2e" |}; {| runId := 4; name := "docs" |};
                {| runId := 5; name := "release" |}];
     scanDependencies := Returns {| autoUpdates := None |};
     createDependencyUpdatePR := Returns None;
     isReleaseNeeded := Returns {| needed := false; reason := "No new commits since last release" |};
     clock := 5 |}.

(** A scan that offers a major, a minor and a patch update. *)
Definition threeKinds : PollEnv :=
  {| getRepoStatus := Returns 0%nat;
     getFailedBuildDetails := Returns [];
     scanDependencies :=
       Returns {| autoUpdates :=
                    Some [{| package := "react"; updateType := "major"; shouldAutoUpdate := true |};
                          {| package := "axios"; updateType := "minor"; shouldAutoUpdate := true |};
                          {| package := "lodash"; updateType := "patch"; shouldAutoUpdate := true |}] |};
     createDependencyUpdatePR := Returns (Some {| number := 12 |});
     isReleaseNeeded := Returns {| needed := false; reason := "No new commits since last release" |};
     clock := 5 |}.

Definition twoRepos : Config :=
  {| targetRepos := ["o/a"; "o/b"]; autoUpdate_minor := true; autoUpdate_patch := true |}.

(** The module state in a cycle whose number is a multiple of 4. *)
Definition fourthCycle : State :=
  {| isRunning := true; checkCount := 4; lastCheck := None; repoState := ∅ |}.

(** The module state in the first cycle. *)
Definition firstCycle : State :=
  {| isRunning := true; checkCount := 1; lastCheck := None; repoState := ∅ |}.

End MoreSamples.

(* ===================================================================== *)
(** ** [src/error-monitor.js]: [seedTestErrors] *)
(* ===================================================================== *)

Module ErrorMonitorSeed.
Import ErrorMonitor.

(** What one iteration of the loop draws: the three indices
    [Math.floor(Math.random() * arr.length)], the random part of the
    request id, and what its [logError] reads. *)
Record SeedDraw : Type := {
  draw_source : nat;
  draw_message : nat;
  draw_severity : nat;
  draw_request : string;
  draw_env : LogEnv
}.

Definition seed_sources : list string :=
  ["api-server"; "web-client"; "worker"; "database"; "cache"].

Definition seed_messages : list string :=
  ["Connection timeout exceeded"; "Invalid JSON response";
   "Rate limit exceeded"; "Authentication failed"; "Resource not found";
   "Out of memory"; "Disk space low"; "SSL certificate expired"].

Definition seed_severities : list string :=
  ["error"; "warning"; "critical"; "error"; "error"].

(** The argument of the [logError] call; an index out of range reads
    [undefined]. *)
Definition seedInput (draw : SeedDraw) : ErrorInput :=
  {| in_severity := seed_severities !! draw_severity draw;
     in_source := seed_sources !! draw_source draw;
     in_message := seed_messages !! draw_message draw;
     in_stack := None;
     in_context := Some [("requestId", String.append "req-" (draw_request draw))] |}.

(** One iteration: the entry is pushed on [errors]; what the alert check
    prints is kept with it. *)
Definition seedStep (draws : nat -> SeedDraw)
    (acc : list ErrorEntry * Disk * list (option (list Fired))) (i : nat)
  : list ErrorEntry * Disk * list (option (list Fired)) :=
  let '(errors, d, alerts) := acc in
  let '(entry, d', fired) := logError (draw_env (draws i)) (seedInput (draws i)) d in
  (errors ++ [entry], d', alerts ++ [fired]).

(** [for (let i = 0; i < 25; i++)]; the result is [errors.length]. *)
Definition seedTestErrors (draws : nat -> SeedDraw) (d : Disk)
  : nat * Disk * list (option (list Fired)) :=
  let '(errors, d', alerts) := foldl (seedStep draws) ([], d, []) (seq 0 25) in
  (length errors, d', alerts).

(** The entries the 25 iterations build, in order. *)
Definition seeded (draws : nat -> SeedDraw) : list ErrorEntry :=
  List.map (fun i => makeEntry (draw_env (draws i)) (seedInput (draws i)))
    (seq 0 25).

End ErrorMonitorSeed.

(* ===================================================================== *)
(** ** [github.js] and [build-monitor.js]: counting workflow runs *)
(* ===================================================================== *)

Module GitHub.

(** A workflow run as the API returns it; a run that has not finished has
    [conclusion: null]. *)
Record Run : Type := {
  run_id : Z;
  run_name : string;
  head_branch : string;
  run_status : string;
  run_conclusion : option string;
  run_started_at : string;
  updated_at : string;
  html_url : string;
  head_sha : option string;
  head_commit_message : option string
}.

Record RepoInfo : Type := { default_branch : string; pushed_at : string }.

Record Release : Type := { tag_name : string }.

Record RepoStatus : Type := {
  repo : RepoInfo;
  openPRs : nat;
  openIssues : nat;
  recentBuilds : nat;
  failedBuilds : nat;
  latestRelease : string;
  defaultBranch : string;
  lastPush : string
}.

(** [x === s] for a value that is a string or [null]. *)
Definition is_str (x : option string) (s : string) : bool :=
  match x with
  | Some v => String.eqb v s
  | None => false
  end.

(** [getRepoStatus] once the five requests of its [Promise.all] have
    returned; pull requests and issues only matter by their number. *)
Definition getRepoStatus {PR Issue : Type} (repoInfo : RepoInfo)
    (openPRs : list PR) (openIssues : list Issue) (recentRuns : list Run)
    (latestRelease : option Release) : RepoStatus :=
  let failedRuns :=
    List.filter (fun run => is_str (run_conclusion run) "failure") recentRuns in
  {| repo := repoInfo;
     openPRs := length openPRs;
     openIssues := length openIssues;
     recentBuilds := length recentRuns;
     failedBuilds := length failedRuns;
     latestRelease := Js.or_else (option_map tag_name latestRelease) "none";
     defaultBranch := default_branch repoInfo;
     lastPush := pushed_at repoInfo |}.

End GitHub.

Module BuildMonitor.
Import GitHub.

Record RunStatus : Type := {
  id : Z;
  name : string;
  branch : string;
  status : string;
  conclusion : option string;
  startedAt : string;
  updatedAt : string;
  url : string;
  commit : option string;
  commitMessage : option string
}.

Record BuildSummary : Type := {
  total : nat;
  success : nat;
  failure : nat;
  pending : nat;
  cancelled : nat;
  runs : list RunStatus
}.

(** [s.split('\n')[0]]. *)
Fixpoint firstLine (s : string) : string :=
  match s with
  | EmptyString => EmptyString
  | String c rest =>
      if Ascii.eqb c "010"%char then EmptyString else String c (firstLine rest)
  end.

Definition statusOf (run : Run) : RunStatus :=
  {| id := run_id run;
     name := run_name run;
     branch := head_branch run;
     status := run_status run;
     conclusion := run_conclusion run;
     startedAt := run_started_at run;
     updatedAt := updated_at run;
     url := html_url run;
     commit := option_map (String.substring 0 7) (head_sha run);
     commitMessage := option_map firstLine (head_commit_message run) |}.

(** The body of the loop over the runs. *)
Definition addRun (summary : BuildSummary) (run : Run) : BuildSummary :=
  let runs' := runs summary ++ [statusOf run] in
  if String.eqb (run_status run) "in_progress"
     || String.eqb (run_status run) "queued"
  then {| total := total summary; success := success summary;
          failure := failure summary; pending := S (pending summary);
          cancelled := cancelled summary; runs := runs' |}
  else if is_str (run_conclusion run) "success"
  then {| total := total summary; success := S (success summary);
          failure := failure summary; pending := pending summary;
          cancelled := cancelled summary; runs := runs' |}
  else if is_str (run_conclusion run) "failure"
  then {| total := total summary; success := success summary;
          failure := S (failure summary); pending := pending summary;
          cancelled := cancelled summary; runs := runs' |}
  else if is_str (run_conclusion run) "cancelled"
  then {| total := total summary; success := success summary;
          failure := failure summary; pending := pending summary;
          cancelled := S (cancelled summary); runs := runs' |}
  else {| total := total summary; success := success summary;
          failure := failure summary; pending := pending summary;
          cancelled := cancelled summary; runs := runs' |}.

(** [getBuildStatus], given what [getWorkflowRuns] does. *)
Definition getBuildStatus (getWorkflowRuns : Daemon.outcome (list Run))
  : Daemon.outcome BuildSummary :=
  match getWorkflowRuns with
  | Daemon.Throws msg => Daemon.Throws msg
  | Daemon.Returns fetched =>
      Daemon.Returns
        (foldl addRun
           {| total := length fetched; success := 0; failure := 0;
              pending := 0; cancelled := 0; runs := [] |}
           fetched)
  end.

Definition hasFailingBuilds (getWorkflowRuns : Daemon.outcome (list Run))
  : Daemon.outcome bool :=
  match getBuildStatus getWorkflowRuns with
  | Daemon.Throws msg => Daemon.Throws msg
  | Daemon.Returns status => Daemon.Returns (0 <? failure status)%nat
  end.

(** A run that is still going on. *)
Definition isPending (run : Run) : bool :=
  String.eqb (run_status run) "in_progress" || String.eqb (run_status run) "queued".

(** A run that is over and has the given conclusion. *)
Definition concluded (what : string) (run : Run) : bool :=
  negb (isPending run) && is_str (run_conclusion run) what.

End BuildMonitor.

(* ===================================================================== *)
(** ** [src/deps.js]: the kind of an update *)
(* ===================================================================== *)

Module Deps.

(** What [semver.coerce] returns for a version it can read. *)
Record SemVer : Type := { major : nat; minor : nat; patch : nat }.

(** [getUpdateType]; the arguments are the results of [semver.coerce] on
    the two version strings, [None] for [null]. *)
Definition getUpdateType (current latest : option SemVer) : string :=
  match current, latest with
  | Some current, Some latest =>
      if (major current <? major latest)%nat then "major"
      else if (minor current <? minor latest)%nat then "minor"
      else if (patch current <? patch latest)%nat then "patch"
      else "none"
  | _, _ => "unknown"
  end.

(** [config.deps.autoUpdate]. *)
Record AutoUpdate : Type := {
  auto_patch : bool;
  auto_minor : bool;
  auto_major : bool
}.

Definition autoUpdate : AutoUpdate :=
  {| auto_patch := true; auto_minor := true; auto_major := false |}.

(** [config.deps.autoUpdate[updateType] || false] for the five strings
    [getUpdateType] returns. *)
Definition shouldAutoUpdate (flags : AutoUpdate) (updateType : string) : bool :=
  if String.eqb updateType "patch" then auto_patch flags
  else if String.eqb updateType "minor" then auto_minor flags
  else if String.eqb updateType "major" then auto_major flags
  else false.

(** [semver.gt] on two versions without pre-release tags: the order on
    (major, minor, patch) read left to right. *)
Definition gt (a b : SemVer) : bool :=
  (major b <? major a)%nat
  || ((major a =? major b)%nat
      && ((minor b <? minor a)%nat
          || ((minor a =? minor b)%nat && (patch b <? patch a)%nat))).

End Deps.
(* ===================================================================== *)
(** ** Facts about the JavaScript values *)
(* ===================================================================== *)

Module JsFacts.
Import Js.

Lemma slice_last_length {A} (n : nat) (l : list A) :
  length (slice_last n l) = Nat.min n (length l).
Proof. unfold slice_last. rewrite length_drop. lia. Qed.

Lemma slice_last_split {A} (n : nat) (l : list A) :
  l = take (length l - n) l ++ slice_last n l.
Proof. unfold slice_last. now rewrite take_drop. Qed.

(** *** Objects *)

Section Objects.
Context {V : Type}.
Implicit Types (o : obj V) (k : string) (v : V).

Lemma get_Some_keys o k : is_Some (get o k) <-> In k (keys o).
Proof.
  unfold keys. induction o as [|[k' v'] o IH]; simpl.
  - split; [intros [? ?]; discriminate | tauto].
  - destruct (String.eqb_spec k k') as [->|Hne].
    + split; eauto.
    + rewrite IH. split; [tauto|]. intros [E|H]; [congruence|assumption].
Qed.

Lemma get_None_keys o k : get o k = None <-> ~ In k (keys o).
Proof.
  rewrite <- get_Some_keys. destruct (get o k) as [v|].
  - split; [discriminate|]. intros H. exfalso. apply H. eauto.
  - split; [|reflexivity]. intros _ [? ?]. discriminate.
Qed.

Lemma keys_replace o k v : keys (replace k v o) = keys o.
Proof.
  unfold keys. induction o as [|[k' v'] o IH]; simpl; [reflexivity|].
  destruct (String.eqb k k'); simpl; [reflexivity|]. now rewrite IH.
Qed.

Lemma get_replace_eq o k v : is_Some (get o k) -> get (replace k v o) k = Some v.
Proof.
  induction o as [|[k' v'] o IH]; simpl.
  - intros [? ?]; discriminate.
  - destruct (String.eqb_spec k k') as [->|Hne]; simpl.
    + now rewrite String.eqb_refl.
    + destruct (String.eqb_spec k k'); [congruence|]. apply IH.
Qed.

Lemma get_replace_ne o k k' v : k <> k' -> get (replace k v o) k' = get o k'.
Proof.
  intros Hne. induction o as [|[k0 v0] o IH]; simpl; [reflexivity|].
  destruct (String.eqb_spec k k0) as [->|Hk]; simpl.
  - destruct (String.eqb_spec k' k0); [congruence|reflexivity].
  - now rewrite IH.
Qed.

Lemma place_index_perm n k v o : place_index n k v o ≡ₚ (k, v) :: o.
Proof.
  induction o as [|[k' v'] o IH]; simpl; [reflexivity|].
  destruct (array_index k'); [destruct (n <? n0)%N|]; try reflexivity.
  rewrite IH. apply Permutation_swap.
Qed.

Lemma get_place_index_eq n k v o :
  get o k = None -> get (place_index n k v o) k = Some v.
Proof.
  induction o as [|[k' v'] o IH]; simpl.
  - now rewrite String.eqb_refl.
  - destruct (String.eqb_spec k k') as [->|Hne]; [discriminate|].
    intros H. destruct (array_index k'); [destruct (n <? n0)%N|]; simpl;
      rewrite ?String.eqb_refl; try reflexivity.
    destruct (String.eqb_spec k k'); [congruence|]. now apply IH.
Qed.

Lemma get_place_index_ne n k k' v o :
  k <> k' -> get (place_index n k v o) k' = get o k'.
Proof.
  intros Hne. induction o as [|[k0 v0] o IH]; simpl.
  - destruct (String.eqb_spec k' k); [congruence|reflexivity].
  - destruct (array_index k0); [destruct (n <? n0)%N|]; simpl;
      try (destruct (String.eqb_spec k' k); [congruence|reflexivity]).
    now rewrite IH.
Qed.

Lemma get_app_last_eq o k v : get o k = None -> get (o ++ [(k, v)]) k = Some v.
Proof.
  induction o as [|[k' v'] o IH]; simpl.
  - now rewrite String.eqb_refl.
  - destruct (String.eqb k k'); [discriminate|]. apply IH.
Qed.

Lemma get_app_last_ne o k k' v : k <> k' -> get (o ++ [(k, v)]) k' = get o k'.
Proof.
  intros Hne. induction o as [|[k0 v0] o IH]; simpl.
  - destruct (String.eqb_spec k' k); [congruence|reflexivity].
  - now rewrite IH.
Qed.

Lemma get_set_eq o k v : get (set o k v) k = Some v.
Proof.
  unfold set. destruct (get o k) eqn:E.
  - apply get_replace_eq. rewrite E. eauto.
  - destruct (array_index k).
    + now apply get_place_index_eq.
    + now apply get_app_last_eq.
Qed.

Lemma get_set_ne o k k' v : k <> k' -> get (set o k v) k' = get o k'.
Proof.
  intros Hne. unfold set. destruct (get o k).
  - now apply get_replace_ne.
  - destruct (array_index k).
    + now apply get_place_index_ne.
    + now apply get_app_last_ne.
Qed.

(** Assigning to a key the object has keeps the enumeration; a new key
    adds exactly itself. *)
Lemma keys_set_old o k v : is_Some (get o k) -> keys (set o k v) = keys o.
Proof. intros [x E]. unfold set. rewrite E. apply keys_replace. Qed.

Lemma keys_set_new_perm o k v :
  get o k = None -> keys (set o k v) ≡ₚ k :: keys o.
Proof.
  intros E. unfold set, keys. rewrite E. destruct (array_index k).
  - now rewrite place_index_perm.
  - rewrite map_app. simpl. now rewrite <- Permutation_cons_append.
Qed.

(** A key that is not an array index is enumerated after all others. *)
Lemma keys_set_new_plain o k v :
  get o k = None -> array_index k = None -> keys (set o k v) = keys o ++ [k].
Proof.
  intros E Hk. unfold set, keys. rewrite E, Hk. now rewrite map_app.
Qed.


Lemma NoDup_keys_set o k v : NoDup (keys o) -> NoDup (keys (set o k v)).
Proof.
  intros Hnd. destruct (get o k) eqn:E.
  - rewrite keys_set_old; [assumption|]. rewrite E. eauto.
  - rewrite keys_set_new_perm by assumption.
    apply NoDup_cons. split; [|assumption].
    rewrite list_elem_of_In. now apply get_None_keys.
Qed.

End Objects.

(** *** The stable sort *)

Section Sort.
Context {A : Type} (cmp : A -> A -> Z).

Lemma sort_insert_perm x l : sort_insert cmp x l ≡ₚ x :: l.
Proof.
  induction l as [|y l IH]; simpl; [reflexivity|].
  destruct (0 <? cmp x y); [|reflexivity].
  rewrite IH. apply Permutation_swap.
Qed.

Lemma sort_perm l : sort cmp l ≡ₚ l.
Proof.
  induction l as [|x l IH]; simpl; [reflexivity|].
  unfold sort in *. simpl. rewrite sort_insert_perm. now rewrite IH.
Qed.

(** Elements that the comparator never orders strictly against [x] keep
    their place relative to [x]: a class [p] closed in this way is left in
    its original order. *)
Lemma sort_insert_filter (p : A -> bool) x l :
  (forall y, p x = true -> p y = true -> cmp x y <= 0) ->
  List.filter p (sort_insert cmp x l) = List.filter p (x :: l).
Proof.
  intros Hp. induction l as [|y l IH]; [reflexivity|].
  simpl sort_insert. destruct (0 <? cmp x y) eqn:E; [|reflexivity].
  apply Z.ltb_lt in E. simpl. simpl in IH. rewrite IH.
  destruct (p x) eqn:Hx, (p y) eqn:Hy; try reflexivity.
  specialize (Hp y eq_refl Hy). lia.
Qed.

Lemma sort_filter (p : A -> bool) l :
  (forall x y, p x = true -> p y = true -> cmp x y <= 0) ->
  List.filter p (sort cmp l) = List.filter p l.
Proof.
  intros Hp. induction l as [|x l IH]; [reflexivity|].
  unfold sort in *. simpl foldr. rewrite sort_insert_filter by (apply Hp).
  simpl. now rewrite IH.
Qed.

End Sort.

End JsFacts.

(* ===================================================================== *)
(** ** Facts about the error monitor *)
(* ===================================================================== *)

Module ErrorMonitorFacts.
Import Js JsFacts ErrorMonitor Notions.

Lemma occurrences_pos k l : (0 < occurrences k l)%nat <-> In k l.
Proof.
  unfold occurrences. induction l as [|x l IH]; simpl; [split; [lia|tauto]|].
  destruct (String.eqb_spec k x) as [->|Hne]; simpl.
  - split; [auto|lia].
  - rewrite IH. split; [tauto|]. intros [E|H]; [congruence|assumption].
Qed.

Lemma includes_In l k : includes l k = true <-> In k l.
Proof.
  unfold includes. rewrite existsb_exists. split.
  - intros (x & Hx & E). apply String.eqb_eq in E. now subst.
  - intros H. exists k. split; [assumption|apply String.eqb_refl].
Qed.

(** *** Objects with distinct keys *)

Lemma In_get {V} (o : obj V) k v :
  NoDup (keys o) -> In (k, v) o <-> get o k = Some v.
Proof.
  unfold keys. induction o as [|[k' v'] o IH]; simpl; intros Hnd.
  - split; [tauto|discriminate].
  - apply NoDup_cons in Hnd as [Hk Hnd].
    destruct (String.eqb_spec k k') as [->|Hne].
    + split.
      * intros [E|H]; [congruence|]. exfalso. apply Hk.
        apply list_elem_of_In. apply (in_map fst) in H. exact H.
      * intros [= ->]. now left.
    + rewrite <- IH by assumption. split; [|tauto].
      intros [E|H]; [congruence|assumption].
Qed.

(** *** The counters of [getErrorSummary] *)

Lemma bump_keys_NoDup o k : NoDup (keys o) -> NoDup (keys (bump o k)).
Proof. apply NoDup_keys_set. Qed.

Lemma fold_bump_NoDup l o : NoDup (keys o) -> NoDup (keys (fold_left bump l o)).
Proof.
  revert o. induction l as [|x l IH]; simpl; intros o H; [assumption|].
  apply IH. now apply bump_keys_NoDup.
Qed.

Lemma fold_bump_get l o k :
  get (fold_left bump l o) k =
    match get o k, occurrences k l with
    | None, O => None
    | x, n => Some (default 0 x + Z.of_nat n)
    end.
Proof.
  revert o. unfold occurrences.
  induction l as [|x l IH]; simpl; intros o.
  - destruct (get o k); [f_equal; lia|reflexivity].
  - rewrite IH. unfold bump. destruct (String.eqb_spec k x) as [->|Hne].
    + rewrite get_set_eq. simpl length.
      destruct (get o x); simpl; f_equal; lia.
    + rewrite get_set_ne by congruence. reflexivity.
Qed.

Lemma tally_NoDup l : NoDup (keys (tally l)).
Proof. apply fold_bump_NoDup. constructor. Qed.

(** The object built by the counting loop holds, for each key that occurs,
    the number of its occurrences. *)
Lemma tally_get l k :
  get (tally l) k =
    if includes l k then Some (Z.of_nat (occurrences k l)) else None.
Proof.
  unfold tally. rewrite fold_bump_get. simpl.
  destruct (includes l k) eqn:H.
  - apply includes_In, occurrences_pos in H.
    destruct (occurrences k l); [lia|reflexivity].
  - destruct (occurrences k l) eqn:E; [reflexivity|].
    assert (includes l k = true) by (apply includes_In, occurrences_pos; lia).
    congruence.
Qed.

Lemma tally_entry l k c :
  In (k, c) (tally l) <-> In k l /\ c = Z.of_nat (occurrences k l).
Proof.
  rewrite (In_get _ _ _ (tally_NoDup l)), tally_get, <- includes_In.
  destruct (includes l k); split; try discriminate.
  - intros [= <-]. tauto.
  - intros [_ ->]. reflexivity.
  - intros [? _]. discriminate.
Qed.

(** Keys that are not array indices are enumerated in the order of their
    first occurrence. *)
Lemma fold_bump_keys l o :
  Forall (fun k => array_index k = None) l ->
  keys (fold_left bump l o) = keys o ++ firstSeen (keys o) l.
Proof.
  revert o. induction l as [|k l IH]; simpl; intros o Hl.
  - now rewrite app_nil_r.
  - apply Forall_cons in Hl as [Hk Hl]. rewrite IH by assumption.
    unfold bump. destruct (get o k) eqn:E.
    + rewrite keys_set_old by (rewrite E; eauto).
      assert (In k (keys o)) as Hin by (apply get_Some_keys; rewrite E; eauto).
      apply includes_In in Hin. now rewrite Hin.
    + rewrite keys_set_new_plain by assumption.
      assert (includes (keys o) k = false) as ->.
      { apply not_true_is_false. rewrite includes_In. now apply get_None_keys. }
      now rewrite <- app_assoc.
Qed.

Lemma tally_keys l :
  Forall (fun k => array_index k = None) l ->
  keys (tally l) = firstSeen [] l.
Proof. intros H. unfold tally. now rewrite fold_bump_keys. Qed.
End ErrorMonitorFacts.

(* ===================================================================== *)
(** ** The summary: the most frequent fingerprints *)
(* ===================================================================== *)

Module SummaryFacts.
Import Js JsFacts ErrorMonitor Notions ErrorMonitorFacts.

Lemma sort_insert_countDesc x l :
  StronglySorted countDesc l ->
  StronglySorted countDesc (sort_insert byCountDesc x l).
Proof.
  induction 1 as [|y l Hl IH Hy]; simpl.
  - repeat constructor.
  - unfold byCountDesc at 1. destruct (0 <? snd y - snd x) eqn:E.
    + apply Z.ltb_lt in E. constructor; [exact IH|].
      rewrite sort_insert_perm. constructor; [unfold countDesc; lia|exact Hy].
    + apply Z.ltb_ge in E. constructor; [now constructor|].
      constructor; [unfold countDesc; lia|].
      eapply Forall_impl; [exact Hy|]. unfold countDesc. intros z Hz. lia.
Qed.

Lemma sort_countDesc l : StronglySorted countDesc (sort byCountDesc l).
Proof.
  induction l as [|x l IH]; [constructor|].
  unfold sort in *. simpl. now apply sort_insert_countDesc.
Qed.

Lemma StronglySorted_take_le {A} (R : A -> A -> Prop) n l :
  StronglySorted R l -> StronglySorted R (take n l).
Proof.
  intros H. rewrite <- (take_drop n l) in H.
  now apply StronglySorted_app_1_l in H.
Qed.

Lemma filter_take_prefix {A} (p : A -> bool) n (l : list A) :
  List.filter p (take n l) `prefix_of` List.filter p l.
Proof.
  rewrite <- (take_drop n l) at 2. rewrite List.filter_app.
  now exists (List.filter p (drop n l)).
Qed.

(** Elements with one and the same count are never ordered strictly. *)
Lemma hasCount_tie c x y :
  hasCount c x = true -> hasCount c y = true -> byCountDesc x y <= 0.
Proof.
  unfold hasCount, byCountDesc. intros Hx%Z.eqb_eq Hy%Z.eqb_eq. lia.
Qed.

Lemma entryOf_topOf filtered byFp :
  List.map entryOf (topOf filtered byFp) = take 5 (sort byCountDesc (entries byFp)).
Proof.
  unfold topOf. rewrite List.map_map.
  rewrite <- (List.map_id (take 5 _)) at 2.
  apply List.map_ext. intros [k c]. reflexivity.
Qed.

(** C9 (as the code has it): the list of top fingerprints has at most 5
    entries, each with the number of filtered events that carry its
    fingerprint, in descending order of that number; entries with equal
    numbers stay in the order in which the counter object enumerates its
    keys, which for fingerprints that are not array indices is the order of
    their first occurrence in the filtered list.  Recency plays no part. *)
Theorem topErrors_ranked (now stamp : Z) (options : SummaryOptions) (d : Disk) :
  let filtered := summaryFilter options now (loadErrors d) in
  let fps := List.map fingerprint filtered in
  let top := topErrors (getErrorSummary now stamp options d) in
  (length top <= 5)%nat
  /\ StronglySorted topDesc top
  /\ Forall (fun t => In (top_fingerprint t) fps
                      /\ top_count t = Z.of_nat (occurrences (top_fingerprint t) fps)) top
  /\ (forall c, List.filter (hasCount c) (List.map entryOf top)
                 `prefix_of` List.filter (hasCount c) (entries (tally fps)))
  /\ (Forall (fun k => array_index k = None) fps ->
      keys (tally fps) = firstSeen [] fps).
Proof.
  intros filtered fps top.
  assert (List.map entryOf top = take 5 (sort byCountDesc (entries (tally fps))))
    as Htop by apply entryOf_topOf.
  repeat split.
  - rewrite <- (length_map entryOf top), Htop, length_take. lia.
  - assert (StronglySorted countDesc (List.map entryOf top)) as Hs.
    { rewrite Htop. apply StronglySorted_take_le, sort_countDesc. }
    clear Htop. induction top as [|t top IH]; [constructor|].
    simpl in Hs. apply StronglySorted_cons in Hs as [Ht Hs].
    constructor; [now apply IH|].
    rewrite List.Forall_map in Ht. exact Ht.
  - apply List.Forall_forall. intros t Ht.
    assert (In (entryOf t) (tally fps)) as Hin.
    { apply (in_map entryOf) in Ht. rewrite Htop in Ht.
      apply (Permutation_in _ (sort_perm byCountDesc (entries (tally fps)))).
      apply list_elem_of_In. eapply subseteq_take. apply list_elem_of_In. exact Ht. }
    apply tally_entry in Hin. exact Hin.
  - intros c. rewrite Htop.
    rewrite <- (sort_filter byCountDesc (hasCount c) (entries (tally fps)))
      by apply hasCount_tie.
    apply filter_take_prefix.
  - apply tally_keys.
Qed.

(** The ranking theorem at the sample log, whose fingerprints are ordinary
    keys. *)
Lemma topErrors_ranked_witness :
  let fps := List.map fingerprint
               (summaryFilter Samples.noOptions 3000 (loadErrors Samples.thirdCall.1.2)) in
  Forall (fun k => array_index k = None) fps
  /\ keys (tally fps) = firstSeen [] fps.
Proof.
  cbv zeta.
  assert (Forall (fun k => array_index k = None)
            (List.map fingerprint
               (summaryFilter Samples.noOptions 3000 (loadErrors Samples.thirdCall.1.2))))
    as Hplain.
  { apply List.Forall_forall. intros k Hk. vm_compute in Hk.
    repeat (destruct Hk as [<-|Hk]; [vm_compute; reflexivity|]). destruct Hk. }
  split; [exact Hplain|].
  apply (topErrors_ranked 3000 3000 Samples.noOptions Samples.thirdCall.1.2).
  exact Hplain.
Defined.

(** C9 (as stated) fails: with one api event at 0 and one database event at
    1000, both fingerprints count once; the api fingerprint comes first
    although the database event is the more recent. *)
Lemma topErrors_ties_not_by_recency :
  let top := topErrors (getErrorSummary 2000 2000 Samples.noOptions Samples.oneEach) in
  List.map entryOf top = [("YXBpfHRpbWVvdXR8", 1); ("ZGJ8ZG93bnxlcnJv", 1)]
  /\ lastSeen "YXBpfHRpbWVvdXR8" (loadErrors Samples.oneEach) = 0
  /\ lastSeen "ZGJ8ZG93bnxlcnJv" (loadErrors Samples.oneEach) = 1000
  /\ ~ tiesMostRecentFirst (loadErrors Samples.oneEach) top.
Proof.
  cbv zeta. repeat split; try (vm_compute; reflexivity).
  intros H.
  specialize (H 0%nat 1%nat
    {| top_fingerprint := "YXBpfHRpbWVvdXR8"; top_count := 1;
       top_sample := List.find (fun e => String.eqb (fingerprint e) "YXBpfHRpbWVvdXR8")
                       (loadErrors Samples.oneEach) |}
    {| top_fingerprint := "ZGJ8ZG93bnxlcnJv"; top_count := 1;
       top_sample := List.find (fun e => String.eqb (fingerprint e) "ZGJ8ZG93bnxlcnJv")
                       (loadErrors Samples.oneEach) |}).
  vm_compute in H.
  assert (Gt = Gt -> False) as F by (apply H; reflexivity || lia).
  now apply F.
Qed.

End SummaryFacts.

(* ===================================================================== *)
(** ** The event store *)
(* ===================================================================== *)

Module EventStoreFacts.
Import Js JsFacts ErrorMonitor Notions ErrorMonitorFacts.

Lemma recordAlert_errorsFile t fp d : errorsFile (recordAlert t fp d) = errorsFile d.
Proof. reflexivity. Qed.

Lemma alertEach_errorsFile clock groups : forall k d,
  errorsFile (alertEach clock k groups d).1 = errorsFile d.
Proof.
  induction groups as [|[fp l] groups IH]; intros k d; simpl; [reflexivity|].
  specialize (IH (S k) (recordAlert (clock k) fp d)).
  destruct (alertEach clock (S k) groups (recordAlert (clock k) fp d)) as [d' fired].
  exact IH.
Qed.

Lemma checkAlertThreshold_errorsFile now clock e d :
  errorsFile (checkAlertThreshold now clock e d).1 = errorsFile d.
Proof.
  unfold checkAlertThreshold.
  destruct (alertThreshold _ <=? _); [|reflexivity].
  destruct (outOfSilence _ _ _); [|reflexivity].
  unfold triggerAlert.
  pose proof (alertEach_errorsFile clock
    (entries (groupByFingerprint (recentErrors (loadErrorConfig d) now (loadErrors d)))) 0 d) as H.
  destruct (alertEach _ _ _ _) as [d' fired]. exact H.
Qed.

(** What [logError] leaves in the log file. *)
Lemma logError_errorsFile env error d :
  errorsFile (logError env error d).1.2
  = Stored (slice_last 1000 (loadErrors d ++ [makeEntry env error])).
Proof.
  unfold logError.
  pose proof (checkAlertThreshold_errorsFile (env_now env) (env_record env)
    (makeEntry env error)
    (saveErrors (loadErrors d ++ [makeEntry env error]) d)) as H.
  destruct (checkAlertThreshold _ _ _ _) as [d2 fired]. exact H.
Qed.

(** [acknowledgeError] rewrites one entry and keeps the others and their
    order. *)
Lemma ackFirst_shape t errorId errors a updated :
  ackFirst t errorId errors = Some (a, updated) ->
  Forall2 (fun old new => new = old \/ new = acknowledge t old) errors updated.
Proof.
  revert updated. induction errors as [|e errors IH]; simpl; intros updated.
  - discriminate.
  - destruct (String.eqb (id e) errorId).
    + intros [= <- <-]. constructor; [now right|].
      clear. induction errors; constructor; auto.
    + destruct (ackFirst t errorId errors) as [[a' rest]|]; [|discriminate].
      intros [= <- <-]. constructor; [now left|]. now apply IH.
Qed.

(** C7 (as the code has it): after [logError] and after an
    [acknowledgeError] that finds its entry, the log file holds the last
    1000 entries of the list that was saved, for every content of the three
    files and so for every configuration: the number of entries is the
    smaller of 1000 and the length of that list, and what is missing is a
    prefix of it, the oldest entries.  An [acknowledgeError] that finds
    nothing leaves the disk alone. *)
Theorem log_keeps_last_thousand (d : Disk) :
  (forall env error,
     let d' := (logError env error d).1.2 in
     let saved := loadErrors d ++ [makeEntry env error] in
     errorsFile d' = Stored (loadErrors d')
     /\ length (loadErrors d') = Nat.min 1000 (length saved)
     /\ saved = take (length saved - 1000) saved ++ loadErrors d')
  /\ (forall t errorId,
        match acknowledgeError t errorId d with
        | (Some _, d') =>
            exists saved,
              Forall2 (fun old new => new = old \/ new = acknowledge t old)
                (loadErrors d) saved
              /\ errorsFile d' = Stored (loadErrors d')
              /\ length (loadErrors d') = Nat.min 1000 (length saved)
              /\ saved = take (length saved - 1000) saved ++ loadErrors d'
        | (None, d') => d' = d
        end).
Proof.
  split.
  - intros env error d' saved.
    assert (loadErrors d' = slice_last 1000 saved) as E.
    { unfold loadErrors at 1. subst d'. now rewrite logError_errorsFile. }
    rewrite E. repeat split.
    + subst d'. apply logError_errorsFile.
    + apply slice_last_length.
    + apply slice_last_split.
  - intros t errorId. unfold acknowledgeError.
    destruct (ackFirst t errorId (loadErrors d)) as [[a saved]|] eqn:E; [|reflexivity].
    exists saved. split; [eapply ackFirst_shape; exact E|].
    change (loadErrors (saveErrors saved d)) with (slice_last 1000 saved).
    repeat split.
    + apply slice_last_length.
    + apply slice_last_split.
Qed.

(** C7 (as stated) fails on "N configurable": no two contents of the
    configuration file make [logError] leave different logs. *)
Lemma retention_not_configurable :
  ~ exists (c1 c2 : File ConfigFile) ef af env error,
      errorsFile (logError env error
                    {| errorsFile := ef; alertsFile := af; configFile := c1 |}).1.2
      <> errorsFile (logError env error
                    {| errorsFile := ef; alertsFile := af; configFile := c2 |}).1.2.
Proof.
  intros (c1 & c2 & ef & af & env & error & H). apply H.
  now rewrite !logError_errorsFile.
Qed.

(** A configuration that sets every number it can, and a key named for a
    limit, to 2 still keeps three entries. *)
Example retention_ignores_configuration :
  let config := {| cf_sources := None; cf_alertThreshold := Some 2;
                   cf_windowMinutes := Some 2; cf_silenceMinutes := Some 2;
                   cf_severityFilter := None; cf_slackWebhook := None;
                   cf_emailRecipients := None;
                   cf_extra := [("maxErrors", 2)] |} in
  let d0 := {| errorsFile := Missing; alertsFile := Missing;
               configFile := Stored config |} in
  let d1 := (logError (Samples.at_ "e1" 0) Samples.apiTimeout d0).1.2 in
  let d2 := (logError (Samples.at_ "e2" 1000) Samples.apiTimeout d1).1.2 in
  let d3 := (logError (Samples.at_ "e3" 2000) Samples.apiTimeout d2).1.2 in
  List.map id (loadErrors d3) = ["e1"; "e2"; "e3"].
Proof. vm_compute. reflexivity. Qed.

(** C10: a file that is missing or cannot be parsed makes no load fail.
    The log loads as the empty list, so the next [logError] writes a log of
    one entry; the last alert of every fingerprint loads as absent, and the
    next [recordAlert] writes a mapping of one fingerprint; the configuration
    loads as the defaults. *)
Theorem unreadable_files_load_quietly (d : Disk) :
  (unreadable (errorsFile d) ->
     loadErrors d = []
     /\ forall env error,
          errorsFile (logError env error d).1.2 = Stored [makeEntry env error])
  /\ (unreadable (alertsFile d) ->
        (forall fp, getLastAlert fp d = None)
        /\ forall t fp, alertsFile (recordAlert t fp d) = Stored {[ fp := t ]})
  /\ (unreadable (configFile d) -> loadErrorConfig d = defaults).
Proof.
  split; [|split].
  - intros H. split.
    + unfold loadErrors. destruct H as [-> | ->]; reflexivity.
    + intros env error. rewrite logError_errorsFile.
      unfold loadErrors. destruct H as [-> | ->]; reflexivity.
  - intros H. split.
    + intros fp. unfold getLastAlert. destruct H as [-> | ->]; reflexivity.
    + intros t fp. unfold recordAlert. destruct H as [-> | ->]; reflexivity.
  - intros H. unfold loadErrorConfig. destruct H as [-> | ->]; reflexivity.
Qed.

(** The theorem at a disk whose log is corrupt, whose alert file is missing
    and whose configuration is corrupt. *)
Lemma unreadable_files_load_quietly_witness :
  let d := {| errorsFile := Corrupt; alertsFile := Missing; configFile := Corrupt |} in
  loadErrors d = []
  /\ getLastAlert "YXBpfHRpbWVvdXR8" d = None
  /\ loadErrorConfig d = defaults.
Proof.
  cbv zeta.
  destruct (unreadable_files_load_quietly
              {| errorsFile := Corrupt; alertsFile := Missing; configFile := Corrupt |})
    as (He & Ha & Hc).
  split; [apply He; right; reflexivity|].
  split; [apply Ha; left; reflexivity|].
  apply Hc. right. reflexivity.
Defined.

End EventStoreFacts.

(* ===================================================================== *)
(** ** The alert gate *)
(* ===================================================================== *)

Module AlertGateFacts.
Import Js JsFacts ErrorMonitor Notions ErrorMonitorFacts.

Lemma alertEach_fps clock groups : forall k d,
  List.map fired_fp (alertEach clock k groups d).2 = keys groups.
Proof.
  induction groups as [|[fp l] groups IH]; intros k d; simpl; [reflexivity|].
  specialize (IH (S k) (recordAlert (clock k) fp d)).
  destruct (alertEach clock (S k) groups (recordAlert (clock k) fp d)) as [d' fired].
  simpl in *. now rewrite IH.
Qed.



Lemma firesFor_In fp fired :
  firesFor fp (Some fired) = true <-> In fp (List.map fired_fp fired).
Proof.
  unfold firesFor. simpl. rewrite existsb_exists, in_map_iff. split.
  - intros (f & Hf & E). apply String.eqb_eq in E. eauto.
  - intros (f & E & Hf). exists f. split; [assumption|]. now apply String.eqb_eq.
Qed.




(** C1, at a run the code can make: with the threshold at 2, the second api
    timeout fires an alert for the api fingerprint and records it at 1000;
    one second later a database error is logged, its own fingerprint has no
    alert on record, and the alert fires for the api fingerprint again, well
    inside the 15 minutes of silence. *)
Lemma silence_skipped_for_other_fingerprints :
  let api := generateFingerprint Samples.apiTimeout in
  let silence := silenceMinutes (loadErrorConfig Samples.freshDisk) * 60 * 1000 in
  Samples.firedAt api Samples.secondCall.2 = [1000]
  /\ getLastAlert api Samples.secondCall.1.2 = Some 1000
  /\ Samples.firedAt api Samples.thirdCall.2 = [2000]
  /\ silence = 900000
  /\ 2000 - 1000 <= silence.
Proof. vm_compute. repeat split; discriminate. Qed.

(** What does hold: no alert is triggered by an event whose own fingerprint
    has an alert on record that is not older than the silence period. *)
Lemma silence_holds_for_triggering_fingerprint now clock newError d t :
  getLastAlert (fingerprint newError) d = Some t ->
  now - t <= silenceMinutes (loadErrorConfig d) * 60 * 1000 ->
  checkAlertThreshold now clock newError d = (d, None).
Proof.
  intros Hlast Hin. unfold checkAlertThreshold. rewrite Hlast.
  destruct (alertThreshold _ <=? _); [|reflexivity].
  unfold outOfSilence.
  destruct (Z.ltb_spec (silenceMinutes (loadErrorConfig d) * 60 * 1000) (now - t));
    [lia|reflexivity].
Qed.

End AlertGateFacts.

(* ===================================================================== *)
(** ** The per-repository tracker *)
(* ===================================================================== *)

Module TrackerFacts.
Import Js Daemon Notions.

Lemma silentOn_nil p : silentOn p [].
Proof. intros r. reflexivity. Qed.

Lemma silentOn_app p out1 out2 :
  silentOn p out1 -> silentOn p out2 -> silentOn p (out1 ++ out2).
Proof. intros H1 H2 r. now rewrite existsb_app, H1, H2. Qed.

Lemma silentOn_cons p e out :
  (forall r, p r e = false) -> silentOn p out -> silentOn p (e :: out).
Proof. intros H1 H2 r. simpl. now rewrite H1, H2. Qed.

Create HintDb tracker.
#[local] Hint Resolve silentOn_nil silentOn_app silentOn_cons : tracker.

(** Run the monadic operations as far as the data allows. *)
Ltac stepm :=
  cbv beta iota zeta
      delta [bind await emit ret getPrev assign tryCatch prevState trace].

(** A branch of a phase is settled by running it: the result, the final
    [prevState] and the appended trace are read off the computation. *)
Ltac leaf :=
  simpl; eexists _, _, _;
  split; [rewrite <- ?app_assoc; simpl; reflexivity|]; simpl.

Lemma notifyEach_run repo failures s :
  exists out,
    notifyEach repo failures s
      = (Returns tt, {| prevState := prevState s; trace := trace s ++ out |})
    /\ silentOn is_buildFailure out /\ silentOn is_createPR out
    /\ silentOn is_openedPR out /\ silentOn is_releaseNeeded out.
Proof.
  revert s. induction failures as [|f failures IH]; intros s; simpl.
  - exists []. rewrite app_nil_r. destruct s. auto 10 with tracker.
  - unfold bind, emit. simpl.
    destruct (IH {| prevState := prevState s;
                    trace := (trace s ++ [LogBuildFailed repo f])
                             ++ [CallNotifyBuildFailure repo f] |})
      as (out & E & H1 & H2 & H3 & H4).
    exists (LogBuildFailed repo f :: CallNotifyBuildFailure repo f :: out).
    rewrite E. simpl. rewrite <- !app_assoc. simpl.
    repeat split; auto 10 with tracker.
Qed.

(** The build phase: it reports a new failure exactly on its guard, and
    leaves [prevState] alone. *)
Lemma checkBuilds_run env repo failed s :
  exists r out,
    checkBuilds env repo failed s
      = (r, {| prevState := prevState s; trace := trace s ++ out |})
    /\ newBuildFailure repo out
       = (0 <? failed)%nat && differs failed (failedBuilds (prevState s))
    /\ (forall r', r' <> repo -> newBuildFailure r' out = false)
    /\ silentOn is_createPR out /\ silentOn is_openedPR out
    /\ silentOn is_releaseNeeded out.
Proof.
  unfold checkBuilds, bind, getPrev, await, emit. simpl.
  destruct ((0 <? failed)%nat && differs failed (failedBuilds (prevState s))).
  - destruct (getFailedBuildDetails env) as [failures|msg].
    + destruct (notifyEach_run repo (take 3 failures)
                  {| prevState := prevState s;
                     trace := trace s ++ [CallGetFailedBuildDetails repo] |})
        as (out & E & H1 & H2 & H3 & H4).
      exists (Returns tt), (CallGetFailedBuildDetails repo :: out).
      rewrite E. simpl. rewrite <- app_assoc. simpl.
      unfold newBuildFailure. simpl. rewrite String.eqb_refl.
      repeat split; auto 10 with tracker.
      intros r' Hr'. rewrite H1.
      destruct (String.eqb_spec repo r'); [congruence|reflexivity].
    + exists (Throws msg), [CallGetFailedBuildDetails repo].
      unfold newBuildFailure. simpl. rewrite String.eqb_refl.
      repeat split; auto 10 with tracker.
      intros r' Hr'. destruct (String.eqb_spec repo r'); [congruence|reflexivity].
  - exists (Returns tt), []. rewrite app_nil_r. destruct s.
    repeat split; auto with tracker.
Qed.

(** The release phase. *)
Lemma checkRelease_run env repo s :
  exists r p' out,
    checkRelease env repo s = (r, {| prevState := p'; trace := trace s ++ out |})
    /\ failedBuilds p' = failedBuilds (prevState s)
    /\ pendingDepsPR p' = pendingDepsPR (prevState s)
    /\ silentOn is_buildFailure out /\ silentOn is_createPR out
    /\ silentOn is_openedPR out
    /\ newRelease repo out
       = match isReleaseNeeded env with
         | Returns rc => needed rc && negb (releaseNotified (prevState s))
         | Throws _ => false
         end
    /\ match isReleaseNeeded env with
       | Returns rc =>
           r = Returns tt
           /\ releaseNotified p' = releaseNotified (prevState s) || needed rc
       | Throws msg => r = Throws msg /\ p' = prevState s
       end.
Proof.
  unfold checkRelease, bind, getPrev, await, emit, assign. simpl.
  destruct (isReleaseNeeded env) as [rc|msg].
  - destruct (needed rc && negb (releaseNotified (prevState s))) eqn:E; simpl.
    + exists (Returns tt), (set_releaseNotified (prevState s)),
        [CallIsReleaseNeeded repo; LogReleaseNeeded repo (reason rc)].
      rewrite <- app_assoc. unfold newRelease. simpl. rewrite String.eqb_refl.
      apply andb_prop in E as [-> _]. rewrite orb_true_r.
      repeat split; auto 10 with tracker.
    + exists (Returns tt), (prevState s), [CallIsReleaseNeeded repo].
      repeat split; auto 10 with tracker.
      destruct (needed rc), (releaseNotified (prevState s)); simpl in *;
        congruence.
  - exists (Throws msg), (prevState s), [CallIsReleaseNeeded repo].
    repeat split; auto 10 with tracker.
Qed.

(** The dependency phase: it touches only [pendingDepsPR], names only its
    own repository, does nothing about pull requests when one is pending,
    and records the number of the pull request it opened. *)
Lemma checkDeps_run config env count repo s :
  exists r p' out,
    checkDeps config env count repo s
      = (r, {| prevState := p'; trace := trace s ++ out |})
    /\ failedBuilds p' = failedBuilds (prevState s)
    /\ releaseNotified p' = releaseNotified (prevState s)
    /\ silentOn is_buildFailure out /\ silentOn is_releaseNeeded out
    /\ (forall r', r' <> repo ->
          newDepsPR r' out = false /\ existsb (is_openedPR r') out = false)
    /\ (truthy_num (pendingDepsPR (prevState s)) = true ->
          newDepsPR repo out = false /\ p' = prevState s)
    /\ (forall n, In (LogCreatedPR repo n) out -> pendingDepsPR p' = Some n)
    /\ (existsb (is_openedPR repo) out = false -> p' = prevState s)
    /\ ((count mod 4 =? 0)%nat = false -> out = [] /\ r = Returns tt).
Proof.
  assert (forall r', r' <> repo -> String.eqb repo r' = false) as Hother.
  { intros r' Hr'. destruct (String.eqb_spec repo r'); [congruence|reflexivity]. }
  destruct s as [p tr]. unfold checkDeps, newDepsPR. stepm.
  destruct (count mod 4 =? 0)%nat; stepm.
  2:{ exists (Returns tt), p, []. rewrite app_nil_r.
      repeat split; auto with tracker; try discriminate. intros ? []. }
  destruct (scanDependencies env) as [deps|msg]; stepm.
  2:{ leaf. repeat split; auto 10 with tracker; try discriminate.
      intros n [H|[]]; discriminate. }
  destruct (autoUpdates deps) as [[|u us]|]; stepm.
  1,3: leaf; repeat split; auto 10 with tracker; try discriminate;
       intros n [H|[]]; discriminate.
  destruct (autoUpdate_minor config || autoUpdate_patch config); stepm.
  2:{ leaf. repeat split; auto 10 with tracker; try discriminate.
      intros n [H|[H|[]]]; discriminate. }
  destruct ((0 <? length (List.filter (eligible config) (u :: us)))%nat
            && negb (truthy_num (pendingDepsPR p))) eqn:Hguard;
    stepm.
  2:{ leaf. repeat split; auto 10 with tracker; try discriminate.
      intros n [H|[H|[]]]; discriminate. }
  apply andb_prop in Hguard as [_ Hpending].
  apply negb_true_iff in Hpending.
  destruct (createDependencyUpdatePR env) as [[pr|]|msg].
  - leaf. rewrite String.eqb_refl.
    repeat split; auto 10 with tracker; try discriminate; try congruence.
    + now rewrite Hother.
    + now rewrite Hother.
    + intros n [H|[H|[H|[H|[H|[H|[]]]]]]]; try discriminate. congruence.
  - leaf.
    repeat split; auto 10 with tracker; try discriminate; try congruence.
    + now rewrite Hother.
    + intros n [H|[H|[H|[H|[]]]]]; discriminate.
  - leaf.
    repeat split; auto 10 with tracker; try discriminate; try congruence.
    + now rewrite Hother.
    + intros n [H|[H|[H|[H|[H|[]]]]]]; discriminate.
Qed.

Lemma opened_in_trace repo n out :
  In (LogCreatedPR repo n) out -> existsb (is_openedPR repo) out = true.
Proof.
  intros H. apply existsb_exists. exists (LogCreatedPR repo n).
  split; [assumption|]. simpl. apply String.eqb_refl.
Qed.

(** The whole body of [checkRepo], started on [prevState = p] with an empty
    trace. *)
Lemma checkRepoBody_run config env count repo p :
  exists r p' out,
    checkRepoBody config env count repo {| prevState := p; trace := [] |}
      = (r, {| prevState := p'; trace := out |})
    /\ failedBuilds p' = failedBuilds p
    /\ newBuildFailure repo out
       = match getRepoStatus env with
         | Returns n => (0 <? n)%nat && differs n (failedBuilds p)
         | Throws _ => false
         end
    /\ (forall r', r' <> repo ->
          newBuildFailure r' out = false /\ newDepsPR r' out = false
          /\ existsb (is_openedPR r') out = false)
    /\ (truthy_num (pendingDepsPR p) = true ->
          newDepsPR repo out = false /\ pendingDepsPR p' = pendingDepsPR p)
    /\ (forall n, In (LogCreatedPR repo n) out -> pendingDepsPR p' = Some n)
    /\ (forall n, r = Returns n ->
          getRepoStatus env = Returns n
          /\ exists rc, isReleaseNeeded env = Returns rc
               /\ releaseNotified p' = releaseNotified p || needed rc
               /\ newRelease repo out = needed rc && negb (releaseNotified p))
    /\ (newRelease repo out = true ->
          releaseNotified p = false
          /\ exists rc, isReleaseNeeded env = Returns rc /\ needed rc = true).
Proof.
  unfold checkRepoBody. stepm. simpl app.
  destruct (getRepoStatus env) as [failed|msg]; stepm.
  2:{ exists (Throws msg), p, [CallGetRepoStatus repo]. simpl.
      repeat split; intros; auto; try discriminate.
      destruct H as [H|[]]; discriminate. }
  destruct (checkBuilds_run env repo failed
              {| prevState := p; trace := [CallGetRepoStatus repo] |})
    as (r1 & out1 & E1 & Hb1 & Hb2 & Hb3 & Hb4 & Hb5).
  cbn [prevState trace] in *. rewrite E1. clear E1.
  assert (forall n out, silentOn is_openedPR out -> ~ In (LogCreatedPR repo n) out)
    as Hnot.
  { intros n out Hs Hn%opened_in_trace. rewrite Hs in Hn. discriminate. }
  destruct r1 as [[]|msg]; stepm.
  2:{ exists (Throws msg), p, ([CallGetRepoStatus repo] ++ out1).
      unfold newBuildFailure, newDepsPR, newRelease in *. simpl.
      rewrite Hb5.
      repeat split; intros; auto; try discriminate.
      destruct H as [H|H]; [discriminate|]. now apply Hnot in H. }
  destruct (checkDeps_run config env count repo
              {| prevState := p; trace := [CallGetRepoStatus repo] ++ out1 |})
    as (r2 & p2 & out2 & E2 & Hd1 & Hd2 & Hd3 & Hd4 & Hd5 & Hd6 & Hd7 & Hd8 & Hd9).
  cbn [prevState trace] in *. rewrite E2. clear E2.
  assert (forall n, In (LogCreatedPR repo n)
                      (([CallGetRepoStatus repo] ++ out1) ++ out2) ->
                    In (LogCreatedPR repo n) out2) as Hopened.
  { intros n Hn. apply in_app_or in Hn as [[Hn|Hn]|Hn];
      [discriminate|now apply Hnot in Hn|assumption]. }
  destruct r2 as [[]|msg]; stepm.
  2:{ exists (Throws msg), p2, (([CallGetRepoStatus repo] ++ out1) ++ out2).
      unfold newBuildFailure, newDepsPR, newRelease in *.
      assert (existsb (is_releaseNeeded repo)
                (([CallGetRepoStatus repo] ++ out1) ++ out2) = false) as Hquiet.
      { rewrite !existsb_app. simpl. now rewrite Hb5, Hd4. }
      rewrite Hquiet.
      repeat split; intros; rewrite ?existsb_app; simpl;
        rewrite ?Hd3, ?Hb3, ?Hb4, ?orb_false_r; simpl; auto; try discriminate.
      - now apply Hd5.
      - now apply Hd5.
      - now apply Hd6.
      - apply Hd6 in H. destruct H as [_ ->]. reflexivity. }
  destruct (checkRelease_run env repo
              {| prevState := p2;
                 trace := ([CallGetRepoStatus repo] ++ out1) ++ out2 |})
    as (r3 & p3 & out3 & E3 & Hr1 & Hr2 & Hr3 & Hr4 & Hr5 & Hr6 & Hr7).
  cbn [prevState trace] in *. rewrite E3. clear E3.
  assert (forall n, In (LogCreatedPR repo n)
            ((([CallGetRepoStatus repo] ++ out1) ++ out2) ++ out3) ->
          In (LogCreatedPR repo n) out2) as Hopened3.
  { intros n Hn. apply in_app_or in Hn as [Hn|Hn]; [now apply Hopened|].
    now apply Hnot in Hn. }
  exists (match r3 with Returns _ => Returns failed | Throws msg => Throws msg end),
    p3, ((([CallGetRepoStatus repo] ++ out1) ++ out2) ++ out3).
  split; [destruct r3 as [[]|msg]; reflexivity|].
  unfold newBuildFailure, newDepsPR, newRelease in *.
  repeat split; intros; rewrite ?existsb_app; simpl;
    rewrite ?Hd3, ?Hd4, ?Hb3, ?Hb4, ?Hb5, ?Hr3, ?Hr4, ?Hr5, ?orb_false_r;
    simpl; auto; try congruence.
  - now apply Hd5.
  - now apply Hd5.
  - now apply Hd6.
  - apply Hd6 in H. destruct H as [_ ->]. congruence.
  - rewrite Hr2. now apply Hd7, Hopened3.
  - destruct r3 as [[]|msg]; congruence.
  - destruct (isReleaseNeeded env) as [rc|msg].
    + exists rc. destruct Hr7 as [_ Hr7]. rewrite Hr7, Hd2, Hr6, Hd2. auto.
    + destruct Hr7 as [-> _]. discriminate.
  - rewrite !existsb_app in H. simpl in H. rewrite Hb5, Hd4 in H.
    simpl in H. rewrite Hr6, Hd2 in H.
    destruct (isReleaseNeeded env); [|discriminate].
    apply andb_prop in H as [_ H]. now apply negb_true_iff in H.
  - rewrite !existsb_app in H. simpl in H. rewrite Hb5, Hd4 in H.
    simpl in H. rewrite Hr6 in H.
    destruct (isReleaseNeeded env) as [rc|]; [|discriminate].
    apply andb_prop in H as [H _]. eauto.
Qed.

(** [checkRepo] in terms of its body. *)
Lemma checkRepo_unfold config env repo st r p' out :
  checkRepoBody config env (checkCount st) repo
    {| prevState := default emptyState (repoState st !! repo); trace := [] |}
    = (r, {| prevState := p'; trace := out |}) ->
  checkRepo config env repo st =
    match r with
    | Returns failed =>
        ({| isRunning := isRunning st; checkCount := checkCount st;
            lastCheck := lastCheck st;
            repoState :=
              <[repo := {| failedBuilds := Some failed;
                           pendingDepsPR := pendingDepsPR p';
                           releaseNotified := releaseNotified p';
                           repo_lastCheck := Some (clock env) |}]> (repoState st) |},
         Success failed, out)
    | Throws msg =>
        ({| isRunning := isRunning st; checkCount := checkCount st;
            lastCheck := lastCheck st;
            repoState :=
              match repoState st !! repo with
              | Some _ => <[repo := p']> (repoState st)
              | None => repoState st
              end |},
         Failed msg, out ++ [LogError repo msg])
    end.
Proof. intros E. unfold checkRepo. rewrite E. destruct r; reflexivity. Qed.

Lemma differs_spec n previous : differs n previous = true <-> previous <> Some n.
Proof.
  unfold differs. destruct previous as [m|]; [|split; [discriminate|reflexivity]].
  rewrite negb_true_iff, Nat.eqb_neq. split; congruence.
Qed.

(** What a poll does to the module state and what it may put in the trace. *)
Lemma checkRepo_facts config env repo st :
  let '(st', result, out) := checkRepo config env repo st in
  newBuildFailure repo out
    = match getRepoStatus env with
      | Returns n => (0 <? n)%nat && differs n (storedFailedBuilds st repo)
      | Throws _ => false
      end
  /\ storedFailedBuilds st' repo
     = match result with
       | Success n => Some n
       | Failed _ => storedFailedBuilds st repo
       end
  /\ (isRunning st' = isRunning st /\ checkCount st' = checkCount st
      /\ lastCheck st' = lastCheck st)
  /\ (forall r', r' <> repo ->
        repoState st' !! r' = repoState st !! r' /\ newDepsPR r' out = false)
  /\ (truthy_num (storedPendingPR st repo) = true ->
        newDepsPR repo out = false
        /\ storedPendingPR st' repo = storedPendingPR st repo)
  /\ (forall n, In (LogCreatedPR repo n) out ->
        succeeded result = true \/ is_Some (repoState st !! repo) ->
        storedPendingPR st' repo = Some n)
  /\ (forall n, result = Success n ->
        getRepoStatus env = Returns n
        /\ exists rc, isReleaseNeeded env = Returns rc
             /\ storedReleaseNotified st' repo
                = storedReleaseNotified st repo || needed rc
             /\ newRelease repo out
                = needed rc && negb (storedReleaseNotified st repo))
  /\ (newRelease repo out = true ->
        storedReleaseNotified st repo = false
        /\ exists rc, isReleaseNeeded env = Returns rc /\ needed rc = true).
Proof.
  destruct (checkRepoBody_run config env (checkCount st) repo
              (default emptyState (repoState st !! repo)))
    as (r & p' & out & E & Hf & Hb & Ho & Hp & Hc & Hs & Hrel).
  rewrite (checkRepo_unfold _ _ _ _ _ _ _ E).
  unfold storedPendingPR, storedReleaseNotified, storedFailedBuilds in *.
  destruct r as [failed|msg]; cbn [isRunning checkCount lastCheck repoState].
  - split; [exact Hb|]. split; [now rewrite lookup_insert_eq|].
    split; [auto|]. split.
    { intros r' Hr'. rewrite lookup_insert_ne by congruence.
      split; [reflexivity|]. now apply Ho. }
    rewrite lookup_insert_eq. cbn [default pendingDepsPR releaseNotified].
    split; [exact Hp|]. split; [intros n Hn _; now apply Hc|].
    split; [|exact Hrel].
    intros n [= <-]. destruct (Hs failed eq_refl) as (H1 & rc & H2 & H3 & H4).
    split; [assumption|]. exists rc. auto.
  - assert (forall r', newDepsPR r' (out ++ [LogError repo msg]) = newDepsPR r' out)
      as Hlog.
    { intros r'. unfold newDepsPR. rewrite existsb_app. simpl.
      now rewrite orb_false_r. }
    split.
    { rewrite <- Hb. unfold newBuildFailure. rewrite existsb_app. simpl.
      now rewrite orb_false_r. }
    split.
    { destruct (repoState st !! repo) as [q|] eqn:Hq.
      - rewrite lookup_insert_eq. exact Hf.
      - now rewrite Hq. }
    split; [auto|]. split.
    { intros r' Hr'. rewrite Hlog. split; [|now apply Ho].
      destruct (repoState st !! repo); [|reflexivity].
      now rewrite lookup_insert_ne by congruence. }
    split.
    { intros Ht. rewrite Hlog. split; [now apply Hp|].
      destruct (repoState st !! repo) as [q|] eqn:Hq.
      - rewrite lookup_insert_eq. simpl in *. now apply Hp.
      - rewrite Hq. reflexivity. }
    split.
    { intros n Hn [Hsucc|[q Hq]]; [discriminate|].
      rewrite Hq, lookup_insert_eq. cbn [default]. apply Hc.
      apply in_app_or in Hn as [Hn|[Hn|[]]]; [assumption|discriminate]. }
    split; [discriminate|].
    intros H. apply Hrel. revert H. unfold newRelease.
    rewrite existsb_app. simpl. now rewrite orb_false_r.
Qed.

(** C3: a poll reports a new build failure exactly when it observes a count
    of failed builds that is greater than zero and is not the count stored
    for the repository; the count stored after a poll is the one the poll
    observed when it completed, and the old one when it failed. *)
Theorem build_failure_new_iff_count_changed (config : Config) (env : PollEnv)
    (repo : string) (st : State) :
  let '(st', result, out) := checkRepo config env repo st in
  (newBuildFailure repo out = true <->
     exists n, getRepoStatus env = Returns n /\ (0 < n)%nat
               /\ storedFailedBuilds st repo <> Some n)
  /\ storedFailedBuilds st' repo
     = match result with
       | Success n => Some n
       | Failed _ => storedFailedBuilds st repo
       end.
Proof.
  pose proof (checkRepo_facts config env repo st) as H.
  destruct (checkRepo config env repo st) as [[st' result] out].
  destruct H as (Hb & Hs & _).
  split; [|exact Hs]. rewrite Hb.
  destruct (getRepoStatus env) as [n|msg].
  - rewrite andb_true_iff, Nat.ltb_lt, differs_spec. split.
    + intros [H1 H2]. eauto.
    + intros (m & [= <-] & H1 & H2). auto.
  - split; [discriminate|]. intros (m & H & _). discriminate.
Qed.

(** The counts 3, 3, 7 on consecutive polls of a repository whose stored
    count is 3: nothing new, then a new failure. *)
Example build_failures_3_3_7 :
  let st0 := (run DaemonSamples.oneRepo
                (DaemonSamples.cycle (DaemonSamples.sees 3 7 DaemonSamples.featuresSinceRelease))
                boot).1 in
  let '(st1, out1) := run DaemonSamples.oneRepo
                (DaemonSamples.cycle (DaemonSamples.sees 3 7 DaemonSamples.featuresSinceRelease))
                st0 in
  let '(st2, out2) := run DaemonSamples.oneRepo
                (DaemonSamples.cycle (DaemonSamples.sees 7 7 DaemonSamples.featuresSinceRelease))
                st1 in
  storedFailedBuilds (state st0) "o/r" = Some 3%nat
  /\ newBuildFailure "o/r" out1 = false
  /\ newBuildFailure "o/r" out2 = true.
Proof. vm_compute. auto. Qed.

End TrackerFacts.

Module TrackerClaims.
Import Js Daemon Notions TrackerFacts.



(** One step of the system keeps a pending pull request pending and opens
    none for that repository. *)
Lemma step_keeps_pending config l s repo pr :
  storedPendingPR (state s) repo = Some pr -> pr <> 0 ->
  storedPendingPR (state (step config l s).1) repo = Some pr
  /\ newDepsPR repo (step config l s).2 = false.
Proof.
  intros Hp Hpr. destruct l as [now|i env now]; simpl.
  - destruct (isRunning (state s)); [auto|].
    destruct (targetRepos config); simpl; auto.
  - destruct (cycles s !! i) as [[[|r rest] done]|]; [auto| |auto].
    pose proof (checkRepo_facts config env r (state s)) as H.
    destruct (checkRepo config env r (state s)) as [[st result] out].
    destruct H as (_ & _ & _ & Hother & Hsame & _).
    assert (storedPendingPR st repo = Some pr /\ newDepsPR repo out = false)
      as [Hst Hout].
    { destruct (String.eqb_spec repo r) as [->|Hne].
      - destruct Hsame as [H1 H2].
        + rewrite Hp. simpl. now apply negb_true_iff, Z.eqb_neq.
        + split; [congruence|assumption].
      - destruct (Hother repo Hne) as [H1 H2]. split; [|assumption].
        unfold storedPendingPR in *. now rewrite H1. }
    destruct rest; simpl; [|auto].
    split; [assumption|]. unfold newDepsPR in *. rewrite existsb_app, Hout.
    reflexivity.
Qed.

Lemma run_keeps_pending config ls : forall s repo pr,
  storedPendingPR (state s) repo = Some pr -> pr <> 0 ->
  storedPendingPR (state (run config ls s).1) repo = Some pr
  /\ newDepsPR repo (run config ls s).2 = false.
Proof.
  induction ls as [|l ls IH]; intros s repo pr Hp Hpr; simpl; [auto|].
  destruct (step_keeps_pending config l s repo pr Hp Hpr) as [H1 H2].
  destruct (step config l s) as [s1 out1]. simpl in *.
  destruct (IH s1 repo pr H1 Hpr) as [H3 H4].
  destruct (run config ls s1) as [s2 out2]. simpl in *.
  split; [assumption|]. unfold newDepsPR in *. now rewrite existsb_app, H2, H4.
Qed.

(** C5 (as the code has it): when a poll opens a pull request and then
    completes, or polls a repository that already has a stored state, the
    number of the pull request is stored as pending; from then on, whatever
    the timer and the collaborators do, the number stays stored and no
    dependency-update pull request is opened for that repository: the
    script has no operation that clears it. *)
Theorem pending_pr_is_never_reopened (config : Config) (repo : string) (pr : Z) :
  pr <> 0 ->
  (forall env st,
     let '(st', result, out) := checkRepo config env repo st in
     In (LogCreatedPR repo pr) out ->
     succeeded result = true \/ is_Some (repoState st !! repo) ->
     storedPendingPR st' repo = Some pr)
  /\ (forall ls s,
        storedPendingPR (state s) repo = Some pr ->
        storedPendingPR (state (run config ls s).1) repo = Some pr
        /\ newDepsPR repo (run config ls s).2 = false).
Proof.
  intros Hpr. split.
  - intros env st. pose proof (checkRepo_facts config env repo st) as H.
    destruct (checkRepo config env repo st) as [[st' result] out].
    destruct H as (_ & _ & _ & _ & _ & Hc & _). apply Hc.
  - intros ls s Hp. now apply run_keeps_pending.
Qed.

(** The theorem at pull request 7, opened for "o/r" in a fourth cycle that
    completes: it is pending afterwards and four more cycles, the last of
    which scans the dependencies again, open nothing. *)
Lemma pending_pr_is_never_reopened_witness :
  let env := DaemonSamples.sees 0 7 DaemonSamples.featuresSinceRelease in
  let quiet := DaemonSamples.cycle DaemonSamples.unreachable in
  let more := DaemonSamples.cycle env ++ DaemonSamples.cycle env
              ++ DaemonSamples.cycle env ++ DaemonSamples.cycle env in
  let s := (run DaemonSamples.oneRepo
              (quiet ++ quiet ++ quiet ++ DaemonSamples.cycle env) boot).1 in
  let after := run DaemonSamples.oneRepo more s in
  storedPendingPR (state s) "o/r" = Some 7
  /\ checkCount (state after.1) = 8%nat
  /\ storedPendingPR (state after.1) "o/r" = Some 7
  /\ newDepsPR "o/r" after.2 = false.
Proof.
  intros env quiet more s after.
  assert (storedPendingPR (state s) "o/r" = Some 7) as Hp
    by (vm_compute; reflexivity).
  assert (7 <> 0) as H7 by discriminate.
  destruct (pending_pr_is_never_reopened DaemonSamples.oneRepo "o/r" 7 H7)
    as [_ Hrun].
  destruct (Hrun more s Hp) as [H1 H2].
  split; [exact Hp|]. split; [vm_compute; reflexivity|].
  split; [exact H1|exact H2].
Defined.

(** C5 (as stated) fails: after three cycles with GitHub unreachable the
    fourth opens pull request 7 for "o/r" and then fails in the release
    check; nothing is stored for the repository, and the eighth cycle opens
    pull request 8, the pending field never having been set or cleared. *)
Lemma second_pr_opened_after_failed_poll :
  let '(s4, out4) := run DaemonSamples.oneRepo (DaemonSamples.outageThenPR 7) boot in
  let '(s8, out8) := run DaemonSamples.oneRepo (DaemonSamples.outageThenPR 8) s4 in
  DaemonSamples.openedPRs "o/r" out4 = [7]
  /\ storedPendingPR (state s4) "o/r" = None
  /\ DaemonSamples.openedPRs "o/r" out8 = [8]
  /\ newDepsPR "o/r" out8 = true.
Proof. vm_compute. auto. Qed.

End TrackerClaims.

(* ===================================================================== *)
(** ** The scheduler: one cycle at a time *)
(* ===================================================================== *)

Module SchedulerFacts.
Import Js Daemon Notions TrackerFacts.

Lemma checkRepo_isRunning config env repo st :
  isRunning (checkRepo config env repo st).1.1 = isRunning st.
Proof.
  pose proof (checkRepo_facts config env repo st) as H.
  destruct (checkRepo config env repo st) as [[st' result] out].
  now destruct H as (_ & _ & (H & _) & _).
Qed.

Lemma boot_consistent : consistent boot.
Proof. reflexivity. Qed.

Lemma step_consistent config l s :
  consistent s -> consistent (step config l s).1.
Proof.
  destruct s as [st cs]. unfold consistent. cbn [cycles state].
  destruct cs as [|c [|c' cs]]; intros H; [| |destruct H].
  - destruct l as [now|i env now]; cbn [step state cycles].
    + rewrite H. destruct (targetRepos config) as [|r rs] eqn:Ht; simpl.
      * reflexivity.
      * split; [reflexivity|discriminate].
    + rewrite lookup_nil. simpl. exact H.
  - destruct H as [Hrun Hrem].
    destruct l as [now|i env now]; cbn [step state cycles].
    + rewrite Hrun. simpl. auto.
    + destruct i as [|i]; [|simpl; auto].
      cbn [lookup list_lookup].
      destruct c as [[|r rest] done]; [simpl; auto|].
      pose proof (checkRepo_isRunning config env r st) as Hkeep.
      destruct (checkRepo config env r st) as [[st1 result] out].
      simpl in Hkeep. destruct rest as [|r' rest]; simpl.
      * reflexivity.
      * split; [congruence|discriminate].
Qed.

Lemma run_consistent config ls : forall s,
  consistent s -> consistent (run config ls s).1.
Proof.
  induction ls as [|l ls IH]; intros s H; simpl; [exact H|].
  pose proof (step_consistent config l s H) as H1.
  destruct (step config l s) as [s1 out1].
  specialize (IH s1 H1). destruct (run config ls s1) as [s2 out2]. exact IH.
Qed.

Lemma run_cons config l ls s :
  (run config (l :: ls) s).1 = (run config ls (step config l s).1).1.
Proof.
  simpl. destruct (step config l s) as [s1 out1]. cbn [fst].
  destruct (run config ls s1) as [s2 out2]. reflexivity.
Qed.

(** A suspended call that is resumed once per remaining target runs to its
    end and clears the flag, whatever the polls return or throw. *)
Lemma resumes_finish config polls : forall st remaining done,
  remaining <> [] -> length polls = length remaining ->
  let s' := (run config (resumes polls)
               {| state := st;
                  cycles := [{| remaining := remaining; results := done |}] |}).1 in
  isRunning (state s') = false /\ cycles s' = [].
Proof.
  induction polls as [|[env now] polls IH]; intros st rem done Hne Hlen.
  - destruct rem; [congruence|discriminate].
  - destruct rem as [|r rest]; [congruence|]. simpl in Hlen. cbv zeta.
    change (resumes ((env, now) :: polls))
      with (Resume 0 env now :: resumes polls).
    rewrite run_cons. cbn [step cycles state lookup list_lookup].
    destruct (checkRepo config env r st) as [[st1 result] out].
    destruct rest as [|r' rest].
    + destruct polls; [|discriminate]. simpl. auto.
    + cbn [fst delete insert list_insert].
      apply (IH st1 (r' :: rest) (done ++ [(r, result)])); [discriminate|].
      simpl in *. lia.
Qed.

(** C8: in every state the daemon can reach, at most one call of [runCheck]
    is in its loop, and the flag is set exactly when one is.  While the flag
    is set a timer tick changes nothing and only logs that it skips; the
    running call, resumed once for each target it has left, ends with the
    flag cleared whatever its polls return or throw.  While the flag is
    clear a tick starts the next cycle. *)
Theorem one_cycle_at_a_time (config : Config) (ls : list Label) :
  let s := (run config ls boot).1 in
  (length (cycles s) <= 1)%nat
  /\ (isRunning (state s) = true <-> cycles s <> [])
  /\ (isRunning (state s) = true ->
        (forall now, step config (Tick now) s = (s, [LogStillRunning]))
        /\ exists c, cycles s = [c] /\ remaining c <> []
           /\ forall polls, length polls = length (remaining c) ->
                let s' := (run config (resumes polls) s).1 in
                isRunning (state s') = false /\ cycles s' = [])
  /\ (isRunning (state s) = false ->
        forall now,
          let s' := (step config (Tick now) s).1 in
          checkCount (state s') = S (checkCount (state s))
          /\ (targetRepos config <> [] ->
              isRunning (state s') = true
              /\ cycles s' = [{| remaining := targetRepos config; results := [] |}])).
Proof.
  intros s. pose proof (run_consistent config ls boot boot_consistent) as H.
  fold s in H. destruct s as [st cs]. unfold consistent in H.
  cbn [cycles state] in *.
  destruct cs as [|c [|c' cs]]; [| |destruct H].
  - split; [simpl; lia|]. split; [split; congruence|].
    split; [congruence|]. intros _ now. cbn [step state]. rewrite H.
    destruct (targetRepos config) as [|r rs]; simpl; split; auto; congruence.
  - destruct H as [Hrun Hrem]. split; [simpl; lia|].
    split; [split; [discriminate|auto]|]. split; [|congruence]. intros _. split.
    + intros now. cbn [step state]. now rewrite Hrun.
    + exists c. split; [reflexivity|]. split; [assumption|].
      intros polls Hlen. destruct c as [rem done].
      now apply resumes_finish.
Qed.

(** The theorem after the first tick with one target: the flag is set, a
    second tick is skipped, and the poll ends the cycle although every
    collaborator throws. *)
Lemma one_cycle_at_a_time_witness :
  let s := (run DaemonSamples.oneRepo [Tick 0] boot).1 in
  isRunning (state s) = true
  /\ step DaemonSamples.oneRepo (Tick 1800000) s = (s, [LogStillRunning])
  /\ isRunning
       (state (run DaemonSamples.oneRepo
                 (resumes [(DaemonSamples.unreachable, 1)]) s).1) = false.
Proof.
  intros s.
  assert (isRunning (state s) = true) as Hrun by (vm_compute; reflexivity).
  destruct (one_cycle_at_a_time DaemonSamples.oneRepo [Tick 0])
    as (_ & _ & Hset & _).
  destruct (Hset Hrun) as (Hskip & c & Hc & Hrem & Hend).
  split; [exact Hrun|]. split; [apply Hskip|].
  apply Hend.
  assert (cycles s = [{| remaining := ["o/r"]; results := [] |}]) as Hs
    by (vm_compute; reflexivity).
  assert ([c] = [{| remaining := ["o/r"]; results := [] |}]) as Hcs
    by (rewrite <- Hc; exact Hs).
  injection Hcs as ->. reflexivity.
Defined.

End SchedulerFacts.

(* ===================================================================== *)
(** ** Restart: what survives on disk *)
(* ===================================================================== *)

Module RestartFacts.
Import Js ErrorMonitor Process Notions.

Lemma exec_daemon_disk config l p : disk (exec config (OpDaemon l) p).1 = disk p.
Proof. simpl. destruct (Daemon.step config l (memory p)). reflexivity. Qed.

Lemma alertsOf_cons seen seens :
  alertsOf (seen :: seens) = alertsOf [seen] ++ alertsOf seens.
Proof. destruct seen; reflexivity. Qed.

(** Two processes with the same files see the same alerts and end with the
    same files, whatever is in their memories. *)
Lemma execAll_by_disk config ops : forall p1 p2,
  disk p1 = disk p2 ->
  alertsOf (execAll config ops p1).2 = alertsOf (execAll config ops p2).2
  /\ disk (execAll config ops p1).1 = disk (execAll config ops p2).1.
Proof.
  induction ops as [|op ops IH]; intros p1 p2 Hd; [auto|].
  cbn [execAll].
  assert (disk (exec config op p1).1 = disk (exec config op p2).1
          /\ alertsOf [(exec config op p1).2] = alertsOf [(exec config op p2).2])
    as [Hd' Hseen].
  { destruct op as [env error|l].
    - simpl. rewrite Hd.
      destruct (logError env error (disk p2)) as [[entry d] fired]. auto.
    - rewrite !exec_daemon_disk. split; [assumption|]. simpl.
      destruct (Daemon.step config l (memory p1)),
               (Daemon.step config l (memory p2)). reflexivity. }
  destruct (exec config op p1) as [q1 seen1], (exec config op p2) as [q2 seen2].
  cbn [fst snd] in *. destruct (IH q1 q2 Hd') as [H1 H2].
  destruct (execAll config ops q1) as [r1 seens1],
           (execAll config ops q2) as [r2 seens2].
  cbn [fst snd] in *. split; [|assumption].
  rewrite (alertsOf_cons seen1), (alertsOf_cons seen2). now rewrite Hseen, H1.
Qed.

(** C6 (as the code has it): every alert is written to the alert file as it
    is recorded, and the alert gate reads nothing but the files, so after a
    restart every sequence of operations fires the alerts it would have
    fired without the restart and leaves the same files.  The daemon writes
    nothing to disk, and the per-repository state is empty after a
    restart. *)
Theorem alerts_survive_restart (config : Daemon.Config) (p : Process) :
  (forall t fp, getLastAlert fp (recordAlert t fp (disk p)) = Some t)
  /\ (forall ops,
        alertsOf (execAll config ops (restart p)).2
          = alertsOf (execAll config ops p).2
        /\ disk (execAll config ops (restart p)).1
          = disk (execAll config ops p).1)
  /\ (forall l, disk (exec config (OpDaemon l) p).1 = disk p)
  /\ Daemon.repoState (Daemon.state (memory (restart p))) = ∅.
Proof.
  split; [|split; [|split]].
  - intros t fp. unfold getLastAlert, recordAlert. simpl.
    apply lookup_insert_eq.
  - intros ops. now apply execAll_by_disk.
  - intros l. apply exec_daemon_disk.
  - reflexivity.
Qed.

(** C6 (as stated) fails for the per-repository state: a daemon that has
    stored 3 failed builds for "o/r" and polls 3 again reports nothing new,
    but restarted before that poll it reports the build failure again. *)
Lemma tracker_state_lost_on_restart :
  let sees3 := DaemonSamples.cycle
                 (DaemonSamples.sees 3 7 DaemonSamples.featuresSinceRelease) in
  let p := {| disk := Samples.freshDisk;
              memory := (Daemon.run DaemonSamples.oneRepo sees3 Daemon.boot).1 |} in
  let ops := List.map OpDaemon sees3 in
  Daemon.storedFailedBuilds (Daemon.state (memory p)) "o/r" = Some 3%nat
  /\ Daemon.newBuildFailure "o/r"
       (pollsOf (execAll DaemonSamples.oneRepo ops p).2) = false
  /\ Daemon.newBuildFailure "o/r"
       (pollsOf (execAll DaemonSamples.oneRepo ops (restart p)).2) = true.
Proof. vm_compute. auto. Qed.

End RestartFacts.

(* ===================================================================== *)
(** ** More about the error monitor *)
(* ===================================================================== *)

Module ErrorMonitorProps.
Import Js JsFacts ErrorMonitor ErrorMonitorMore Notions ErrorMonitorFacts.
Import EventStoreFacts AlertGateFacts.

(** *** Fingerprints *)

Lemma b64_bytes_nonempty bs : bs <> [] -> (4 <= length (b64_bytes bs))%nat.
Proof.
  destruct bs as [|a [|b [|c rest]]]; [congruence| | |]; intros _; simpl; lia.
Qed.

Lemma length_string_of_list l :
  String.length (string_of_list_ascii l) = length l.
Proof. induction l as [|c l IH]; simpl; [reflexivity|now rewrite IH]. Qed.

Lemma length_substring_0 n s :
  String.length (String.substring 0 n s) = Nat.min n (String.length s).
Proof.
  revert s. induction n as [|n IH]; intros s.
  - destruct s; reflexivity.
  - destruct s as [|c s]; simpl; [reflexivity|]. now rewrite IH.
Qed.

Lemma length_append s1 s2 :
  String.length (String.append s1 s2) = (String.length s1 + String.length s2)%nat.
Proof. induction s1 as [|c s1 IH]; simpl; [reflexivity|now rewrite IH]. Qed.

Lemma base64_length s :
  s <> "" -> (4 <= String.length (base64 s))%nat.
Proof.
  intros Hs. unfold base64. rewrite length_string_of_list.
  apply b64_bytes_nonempty. destruct s; [congruence|discriminate].
Qed.

(** X1: every fingerprint has between 4 and 16 characters, whatever the
    error carries: it is never empty. *)
Theorem fingerprint_length (error : ErrorInput) :
  (4 <= String.length (generateFingerprint error) <= 16)%nat.
Proof.
  unfold generateFingerprint. rewrite length_substring_0.
  set (joined := join "|" _).
  assert (joined <> "") as Hj.
  { subst joined. simpl. intros H. apply (f_equal String.length) in H.
    rewrite !length_append in H. simpl in H. lia. }
  pose proof (base64_length joined Hj). lia.
Qed.

(** *** The log *)

Lemma alertEach_configFile clock groups : forall k d,
  configFile (alertEach clock k groups d).1 = configFile d.
Proof.
  induction groups as [|[fp l] groups IH]; intros k d; simpl; [reflexivity|].
  specialize (IH (S k) (recordAlert (clock k) fp d)).
  destruct (alertEach clock (S k) groups (recordAlert (clock k) fp d)) as [d' fired].
  exact IH.
Qed.

Lemma checkAlertThreshold_configFile now clock e d :
  configFile (checkAlertThreshold now clock e d).1 = configFile d.
Proof.
  unfold checkAlertThreshold.
  destruct (alertThreshold _ <=? _); [|reflexivity].
  destruct (outOfSilence _ _ _); [|reflexivity].
  unfold triggerAlert.
  pose proof (alertEach_configFile clock
    (entries (groupByFingerprint (recentErrors (loadErrorConfig d) now (loadErrors d)))) 0 d) as H.
  destruct (alertEach _ _ _ _) as [d' fired]. exact H.
Qed.

Lemma checkAlertThreshold_quiet now clock e d :
  (checkAlertThreshold now clock e d).2 = None ->
  (checkAlertThreshold now clock e d).1 = d.
Proof.
  unfold checkAlertThreshold.
  destruct (alertThreshold _ <=? _); [|reflexivity].
  destruct (outOfSilence _ _ _); [|reflexivity].
  destruct (triggerAlert _ _ _ _). discriminate.
Qed.

(** X2: while the log holds fewer than 1000 entries, [logError] appends its
    entry at the end and keeps every older entry in place; the entry it
    returns is the one it stored, unacknowledged, with the fingerprint of
    the error. *)
Theorem logError_appends (env : LogEnv) (error : ErrorInput) (d : Disk) :
  (length (loadErrors d) < 1000)%nat ->
  let '(entry, d', _) := logError env error d in
  loadErrors d' = loadErrors d ++ [entry]
  /\ id entry = env_id env /\ timestamp entry = env_stamp env
  /\ fingerprint entry = generateFingerprint error
  /\ acknowledged entry = false /\ acknowledgedAt entry = None.
Proof.
  intros Hlen.
  pose proof (logError_errorsFile env error d) as Hfile.
  unfold logError in *.
  destruct (checkAlertThreshold _ _ _ _) as [d2 fired]. cbn [fst snd] in Hfile.
  split; [|repeat split].
  unfold loadErrors at 1. rewrite Hfile. unfold slice_last.
  rewrite length_app. simpl.
  replace (length (loadErrors d) + 1 - 1000)%nat with 0%nat by lia.
  reflexivity.
Qed.

Lemma logError_appends_witness :
  let '(entry, d', _) := logError (Samples.at_ "e2" 1000) Samples.dbDown Samples.afterFirst in
  loadErrors d' = loadErrors Samples.afterFirst ++ [entry]
  /\ id entry = "e2" /\ timestamp entry = 1000
  /\ fingerprint entry = generateFingerprint Samples.dbDown
  /\ acknowledged entry = false /\ acknowledgedAt entry = None.
Proof.
  apply (logError_appends (Samples.at_ "e2" 1000) Samples.dbDown Samples.afterFirst).
  vm_compute. lia.
Defined.

Lemma logError_configFile (env : LogEnv)
    (error : ErrorInput) (d : Disk) :
  let '(_, d', fired) := logError env error d in
  configFile d' = configFile d
  /\ loadErrorConfig d' = loadErrorConfig d
  /\ (fired = None -> alertsFile d' = alertsFile d).
Proof.
  unfold logError.
  pose proof (checkAlertThreshold_configFile (env_now env) (env_record env)
    (makeEntry env error) (saveErrors (loadErrors d ++ [makeEntry env error]) d)) as Hc.
  pose proof (checkAlertThreshold_quiet (env_now env) (env_record env)
    (makeEntry env error) (saveErrors (loadErrors d ++ [makeEntry env error]) d)) as Hq.
  destruct (checkAlertThreshold _ _ _ _) as [d2 fired]. cbn [fst snd] in *.
  split; [exact Hc|]. split.
  - unfold loadErrorConfig. now rewrite Hc.
  - intros ->. now rewrite (Hq eq_refl).
Qed.

(** X3: [logError] never writes the configuration file, and when its
    evaluation triggers no alert it leaves the alert records as they
    were. *)
Theorem logError_leaves_config_and_quiet_alerts (env : LogEnv)
    (error : ErrorInput) (d : Disk) :
  let '(_, d', fired) := logError env error d in
  configFile d' = configFile d
  /\ loadErrorConfig d' = loadErrorConfig d
  /\ (fired = None -> alertsFile d' = alertsFile d).
Proof. exact (logError_configFile env error d). Qed.

(** *** Unacknowledged errors *)

Lemma slice_from_suffix {A} (start : Z) (l : list A) :
  slice_from start l `suffix_of` l.
Proof. unfold slice_from. destruct (start <? 0); apply suffix_drop. Qed.

Lemma slice_from_neg_length {A} (limit : Z) (l : list A) :
  0 < limit ->
  length (slice_from (- limit) l) = Nat.min (Z.to_nat limit) (length l).
Proof.
  intros H. unfold slice_from.
  destruct (Z.ltb_spec (- limit) 0); [|lia]. rewrite length_drop. lia.
Qed.

(** X4: with a positive limit, [getUnacknowledgedErrors] returns at most
    that many entries, none of them acknowledged, each of the requested
    severity when one is given; they are the last entries of the log that
    qualify, in log order. *)
Theorem unacknowledged_bounded (options : UnackOptions) (d : Disk) :
  let limit := default 20 (unack_limit options) in
  0 < limit ->
  let out := getUnacknowledgedErrors options d in
  (length out <= Z.to_nat limit)%nat
  /\ Forall (fun e => acknowledged e = false) out
  /\ (forall sev, unack_severity options = Some sev -> sev <> "" ->
        Forall (fun e => severity e = sev) out)
  /\ exists older,
       List.filter
         (fun e => negb (acknowledged e)
                   && (negb (truthy_str (unack_severity options))
                       || String.eqb (severity e) (default "" (unack_severity options))))
         (loadErrors d)
       = older ++ out.
Proof.
  intros limit Hlimit out. subst out limit. unfold getUnacknowledgedErrors.
  set (unacked := List.filter (fun e => negb (acknowledged e)) (loadErrors d)).
  set (chosen := if truthy_str (unack_severity options) then _ else unacked).
  assert (chosen = List.filter
            (fun e => negb (acknowledged e)
                      && (negb (truthy_str (unack_severity options))
                          || String.eqb (severity e) (default "" (unack_severity options))))
            (loadErrors d)) as Hchosen.
  { subst chosen unacked. destruct (truthy_str (unack_severity options)); simpl.
    - induction (loadErrors d) as [|e l IH]; simpl; [reflexivity|].
      destruct (acknowledged e); simpl; [exact IH|].
      destruct (String.eqb (severity e) _); simpl; now rewrite IH.
    - apply List.filter_ext. intros e. now rewrite andb_true_r. }
  assert (Forall (fun e => In e chosen) (slice_from (- default 20 (unack_limit options)) chosen))
    as Hin.
  { apply List.Forall_forall. intros e He.
    destruct (slice_from_suffix (- default 20 (unack_limit options)) chosen) as [k Hk].
    rewrite Hk. apply in_or_app. now right. }
  split; [rewrite slice_from_neg_length by assumption; lia|].
  split; [|split].
  - eapply Forall_impl; [exact Hin|]. intros e He. simpl in He.
    rewrite Hchosen in He. apply filter_In in He as [_ He].
    apply andb_prop in He as [He _]. now apply negb_true_iff.
  - intros sev Hsev Hne.
    eapply Forall_impl; [exact Hin|]. intros e He. simpl in He.
    rewrite Hchosen in He. apply filter_In in He as [_ He].
    apply andb_prop in He as [_ He]. rewrite Hsev in He. simpl in He.
    destruct (String.eqb_spec sev ""); [congruence|]. simpl in He.
    now apply String.eqb_eq.
  - rewrite <- Hchosen.
    destruct (slice_from_suffix (- default 20 (unack_limit options)) chosen) as [k Hk].
    exists k. exact Hk.
Qed.

Lemma unacknowledged_bounded_witness :
  let options := {| unack_severity := Some "error"; unack_limit := Some 1 |} in
  let out := getUnacknowledgedErrors options Samples.thirdCall.1.2 in
  (length out <= 1)%nat /\ Forall (fun e => acknowledged e = false) out.
Proof.
  intros options out.
  assert (0 < default 20 (unack_limit options)) as H by (vm_compute; reflexivity).
  destruct (unacknowledged_bounded options Samples.thirdCall.1.2 H) as (H1 & H2 & _).
  split; [exact H1|exact H2].
Defined.

(** X5: a limit of 0 is no limit: [slice(-0)] keeps the whole array, so
    every unacknowledged entry is returned. *)
Theorem unacknowledged_limit_zero (sev : option string) (d : Disk) :
  truthy_str sev = false ->
  getUnacknowledgedErrors {| unack_severity := sev; unack_limit := Some 0 |} d
  = List.filter (fun e => negb (acknowledged e)) (loadErrors d).
Proof.
  intros Hsev. unfold getUnacknowledgedErrors. simpl. rewrite Hsev.
  unfold slice_from. simpl. reflexivity.
Qed.

Lemma unacknowledged_limit_zero_witness :
  length (getUnacknowledgedErrors {| unack_severity := None; unack_limit := Some 0 |}
            Samples.thirdCall.1.2) = 3%nat.
Proof.
  rewrite (unacknowledged_limit_zero None Samples.thirdCall.1.2 eq_refl).
  vm_compute. reflexivity.
Defined.

(** *** Acknowledging *)

Lemma ackFirst_found t errorId errors a updated :
  ackFirst t errorId errors = Some (a, updated) ->
  id a = errorId /\ acknowledged a = true /\ acknowledgedAt a = Some t
  /\ In a updated /\ length updated = length errors
  /\ List.map id updated = List.map id errors.
Proof.
  revert updated. induction errors as [|e errors IH]; simpl; intros updated.
  - discriminate.
  - destruct (String.eqb_spec (id e) errorId) as [He|He].
    + intros [= <- <-]. simpl. auto 10.
    + destruct (ackFirst t errorId errors) as [[a' rest]|]; [|discriminate].
      intros [= <- <-]. destruct (IH rest eq_refl) as (H1 & H2 & H3 & H4 & H5 & H6).
      simpl. rewrite H5, H6. auto 10.
Qed.

Lemma ackFirst_None t errorId errors :
  ackFirst t errorId errors = None <-> ~ In errorId (List.map id errors).
Proof.
  induction errors as [|e errors IH]; simpl; [tauto|].
  destruct (String.eqb_spec (id e) errorId) as [He|He].
  - split; [discriminate|]. intros H. exfalso. auto.
  - destruct (ackFirst t errorId errors) as [[a rest]|].
    + split; [discriminate|]. intros H. exfalso.
      destruct IH as [_ IH]. assert (~ In errorId (List.map id errors)) as Hn by tauto.
      discriminate (IH Hn).
    + split; [|reflexivity]. intros _ [H|H]; [congruence|]. now apply IH.
Qed.

Lemma ackFirst_unique t errorId errors a updated :
  ackFirst t errorId errors = Some (a, updated) ->
  NoDup (List.map id errors) ->
  forall e, In e updated -> id e = errorId -> acknowledged e = true.
Proof.
  revert updated. induction errors as [|e0 errors IH]; simpl; intros updated.
  - discriminate.
  - intros E Hnd. apply NoDup_cons in Hnd as [Hfresh Hnd].
    destruct (String.eqb_spec (id e0) errorId) as [He|He].
    + injection E as <- <-. intros e [<-|Hin] Hid; [reflexivity|].
      exfalso. apply Hfresh. rewrite list_elem_of_In, He, <- Hid.
      now apply in_map.
    + destruct (ackFirst t errorId errors) as [[a' rest]|]; [|discriminate].
      injection E as <- <-. intros e [<-|Hin] Hid; [congruence|].
      now apply (IH rest eq_refl Hnd e).
Qed.

(** X6: [acknowledgeError] finds an entry exactly when some entry of the
    log has the id.  The entry it returns has that id and is acknowledged at
    the time of the call; the log keeps its ids and their order.  When the
    ids of the log are distinct and the log holds at most 1000 entries, no
    entry with that id is listed as unacknowledged afterwards. *)
Theorem acknowledge_then_not_listed (t : Z) (errorId : string) (d : Disk)
    (options : UnackOptions) :
  let '(found, d') := acknowledgeError t errorId d in
  (is_Some found <-> In errorId (List.map id (loadErrors d)))
  /\ (forall e, found = Some e ->
        id e = errorId /\ acknowledged e = true /\ acknowledgedAt e = Some t
        /\ ((length (loadErrors d) <= 1000)%nat ->
            List.map id (loadErrors d') = List.map id (loadErrors d)
            /\ (NoDup (List.map id (loadErrors d)) ->
                Forall (fun u => id u <> errorId)
                  (getUnacknowledgedErrors options d')))).
Proof.
  unfold acknowledgeError.
  destruct (ackFirst t errorId (loadErrors d)) as [[a updated]|] eqn:E.
  - destruct (ackFirst_found _ _ _ _ _ E) as (H1 & H2 & H3 & H4 & H5 & H6).
    split.
    + split; [intros _|eauto].
      destruct (in_dec string_dec errorId (List.map id (loadErrors d))) as [H|H];
        [assumption|]. apply ackFirst_None with (t := t) in H. congruence.
    + intros e [= <-]. split; [assumption|]. split; [assumption|].
      split; [assumption|]. intros Hlen.
      assert (loadErrors (saveErrors updated d) = updated) as Hsaved.
      { unfold loadErrors, saveErrors. simpl. unfold slice_last.
        replace (length updated - 1000)%nat with 0%nat by lia. reflexivity. }
      rewrite Hsaved. split; [assumption|]. intros Hnd.
      apply List.Forall_forall. intros u Hu Hid.
      unfold getUnacknowledgedErrors in Hu. rewrite Hsaved in Hu.
      destruct (slice_from_suffix (- default 20 (unack_limit options))
        (if truthy_str (unack_severity options)
         then List.filter
                (fun e => String.eqb (severity e) (default "" (unack_severity options)))
                (List.filter (fun e => negb (acknowledged e)) updated)
         else List.filter (fun e => negb (acknowledged e)) updated)) as [k Hk].
      assert (In u (List.filter (fun e => negb (acknowledged e)) updated)) as Hin.
      { assert (In u (k ++ slice_from (- default 20 (unack_limit options))
          (if truthy_str (unack_severity options)
           then List.filter
                  (fun e => String.eqb (severity e) (default "" (unack_severity options)))
                  (List.filter (fun e => negb (acknowledged e)) updated)
           else List.filter (fun e => negb (acknowledged e)) updated))) as Hall
          by (apply in_or_app; now right).
        rewrite <- Hk in Hall.
        destruct (truthy_str (unack_severity options)); [|assumption].
        now apply filter_In in Hall as [Hall _]. }
      apply filter_In in Hin as [Hin Hun].
      rewrite (ackFirst_unique _ _ _ _ _ E Hnd u Hin Hid) in Hun. discriminate.
  - split; [|discriminate]. split; [intros [? ?]; discriminate|].
    intros Hin. apply ackFirst_None in E. contradiction.
Qed.

Lemma acknowledge_then_not_listed_witness :
  let d := Samples.thirdCall.1.2 in
  let options := {| unack_severity := None; unack_limit := None |} in
  let '(found, d') := acknowledgeError 5000 "e2" d in
  is_Some found
  /\ Forall (fun u => id u <> "e2") (getUnacknowledgedErrors options d').
Proof.
  intros d options.
  pose proof (acknowledge_then_not_listed 5000 "e2" d options) as H.
  destruct (acknowledgeError 5000 "e2" d) as [found d'].
  destruct H as [Hfound Hshape].
  assert (is_Some found) as Hsome.
  { apply Hfound. vm_compute. tauto. }
  split; [exact Hsome|]. destruct Hsome as [e He].
  destruct (Hshape e He) as (_ & _ & _ & Hrest).
  apply Hrest.
  - vm_compute. lia.
  - vm_compute. repeat constructor; intros H;
      repeat (apply elem_of_cons in H as [H|H]; [discriminate|]);
      now apply elem_of_nil in H.
Defined.

(** *** Saving the configuration *)

(** X7: a configuration with every key that is written by
    [saveErrorConfig] is the configuration [loadErrorConfig] returns
    afterwards, whatever the file held before (even an unreadable one); a
    key left out of the saved object comes back with its default, not with
    the value of the old file; the log and the alert records are not
    touched. *)
Theorem saveErrorConfig_round_trip (d : Disk) :
  (forall config,
     loadErrorConfig (saveErrorConfig (complete config) d) = config)
  /\ (forall partial,
        cf_alertThreshold partial = None ->
        alertThreshold (loadErrorConfig (saveErrorConfig partial d))
        = alertThreshold defaults)
  /\ (forall partial,
        loadErrors (saveErrorConfig partial d) = loadErrors d
        /\ forall fp, getLastAlert fp (saveErrorConfig partial d)
                      = getLastAlert fp d).
Proof.
  split; [|split].
  - intros config. destruct config. reflexivity.
  - intros partial H. unfold loadErrorConfig, saveErrorConfig.
    cbn [configFile alertThreshold]. now rewrite H.
  - intros partial. split; reflexivity.
Qed.

(** *** The summary *)







(** X9: every entry of the top list shows as its sample the first counted
    event that carries its fingerprint, and there is one. *)
Theorem top_sample_is_first_event (now stamp : Z) (options : SummaryOptions)
    (d : Disk) :
  let counted := summaryFilter options now (loadErrors d) in
  Forall (fun t => top_sample t = head (carrying (top_fingerprint t) counted)
                   /\ exists e, top_sample t = Some e /\ In e counted
                                /\ fingerprint e = top_fingerprint t)
    (topErrors (getErrorSummary now stamp options d)).
Proof.
  intros counted. unfold getErrorSummary. simpl. fold counted.
  unfold topOf. apply List.Forall_forall. intros t Ht.
  apply in_map_iff in Ht as ([fp c] & <- & Hin). simpl.
  assert (In fp (List.map fingerprint counted)) as Hfp.
  { apply list_elem_of_In, (subseteq_take 5), list_elem_of_In in Hin.
    apply (Permutation_in _ (sort_perm byCountDesc _)) in Hin.
    now apply tally_entry in Hin as [Hin _]. }
  assert (forall l, List.find (fun e => String.eqb (fingerprint e) fp) l
                    = head (carrying fp l)) as Hfind.
  { induction l as [|e l IH]; simpl; [reflexivity|].
    destruct (String.eqb (fingerprint e) fp); [reflexivity|exact IH]. }
  split; [apply Hfind|].
  apply in_map_iff in Hfp as (e0 & He0 & Hin0).
  destruct (List.find (fun e => String.eqb (fingerprint e) fp) counted) as [e|] eqn:E.
  - apply find_some in E as [H1 H2]. apply String.eqb_eq in H2. eauto.
  - exfalso. apply (find_none _ _ E) in Hin0. rewrite He0, String.eqb_refl in Hin0.
    discriminate.
Qed.

(** *** Alert records *)

Lemma getLastAlert_record_eq t fp d : getLastAlert fp (recordAlert t fp d) = Some t.
Proof. unfold getLastAlert, recordAlert. simpl. apply lookup_insert_eq. Qed.

Lemma getLastAlert_record_ne t fp fp' d :
  fp <> fp' -> getLastAlert fp' (recordAlert t fp d) = getLastAlert fp' d.
Proof.
  intros Hne. unfold getLastAlert, recordAlert. simpl.
  rewrite lookup_insert_ne by assumption.
  destruct (alertsFile d); try reflexivity; apply lookup_empty.
Qed.

(** The reporting loop, one line per group: the line carries the group's
    fingerprint, size and first event, its time is a reading of the clock,
    and that time is what the alert records hold for the fingerprint
    afterwards; other fingerprints keep their records. *)
Lemma alertEach_records clock groups : forall k d,
  NoDup (keys groups) ->
  let '(d', fired) := alertEach clock k groups d in
  Forall2 (fun f g => fired_fp f = g.1 /\ fired_count f = length g.2
                      /\ fired_sample f = head g.2
                      /\ (exists i, fired_at f = clock i)
                      /\ getLastAlert (fired_fp f) d' = Some (fired_at f))
    fired groups
  /\ (forall fp, ~ In fp (keys groups) -> getLastAlert fp d' = getLastAlert fp d).
Proof.
  unfold keys.
  induction groups as [|[fp l] groups IH]; intros k d Hnd; simpl.
  - split; [constructor|auto].
  - apply NoDup_cons in Hnd as [Hfresh Hnd]. rewrite list_elem_of_In in Hfresh.
    specialize (IH (S k) (recordAlert (clock k) fp d) Hnd).
    destruct (alertEach clock (S k) groups (recordAlert (clock k) fp d)) as [d' fired].
    destruct IH as [Hlines Hother]. split.
    + constructor; [|exact Hlines]. simpl.
      split; [reflexivity|]. split; [reflexivity|]. split; [reflexivity|].
      split; [eauto|]. rewrite (Hother fp Hfresh). apply getLastAlert_record_eq.
    + intros fp' Hfp'. rewrite Hother by tauto.
      apply getLastAlert_record_ne. intros ->. tauto.
Qed.

Lemma group_fold_NoDup (l : list ErrorEntry) : forall (o : obj (list ErrorEntry)),
  NoDup (keys o) ->
  NoDup (keys (fold_left
                (fun byFingerprint error =>
                   match get byFingerprint (fingerprint error) with
                   | Some fpErrors =>
                       set byFingerprint (fingerprint error) (fpErrors ++ [error])
                   | None => set byFingerprint (fingerprint error) [error]
                   end) l o)).
Proof.
  induction l as [|e l IH]; intros o Hnd; simpl; [assumption|].
  apply IH. destruct (get o (fingerprint e)); now apply NoDup_keys_set.
Qed.

Lemma group_fold_get (l : list ErrorEntry) : forall (o : obj (list ErrorEntry)) k,
  get (fold_left
         (fun byFingerprint error =>
            match get byFingerprint (fingerprint error) with
            | Some fpErrors =>
                set byFingerprint (fingerprint error) (fpErrors ++ [error])
            | None => set byFingerprint (fingerprint error) [error]
            end) l o) k
  = match get o k, carrying k l with
    | None, [] => None
    | g, more => Some (default [] g ++ more)
    end.
Proof.
  unfold carrying.
  induction l as [|e l IH]; intros o k; simpl.
  - destruct (get o k); [now rewrite app_nil_r|reflexivity].
  - rewrite IH. destruct (String.eqb_spec (fingerprint e) k) as [->|Hne].
    + destruct (get o k) as [g|]; rewrite get_set_eq; simpl;
        [now rewrite <- app_assoc|reflexivity].
    + destruct (get o (fingerprint e)); now rewrite get_set_ne by assumption.
Qed.

Lemma groupByFingerprint_NoDup l : NoDup (keys (groupByFingerprint l)).
Proof. apply group_fold_NoDup. constructor. Qed.

Lemma groupByFingerprint_entry l fp g :
  In (fp, g) (groupByFingerprint l) -> g = carrying fp l /\ g <> [].
Proof.
  intros H. apply (In_get _ _ _ (groupByFingerprint_NoDup l)) in H.
  unfold groupByFingerprint in H. rewrite group_fold_get in H. simpl in H.
  destruct (carrying fp l); [discriminate|]. injection H as <-.
  split; [reflexivity|discriminate].
Qed.

(** X10: an alert names each fingerprint at most once; for each fingerprint
    it names, the time it reports is the last-alert time on record
    afterwards, and the record of every other fingerprint is what it
    was. *)
Theorem triggerAlert_records (clock : nat -> Z) (errors : list ErrorEntry)
    (config : ErrorConfig) (d : Disk) :
  let '(d', fired) := triggerAlert clock errors config d in
  NoDup (List.map fired_fp fired)
  /\ Forall (fun f => getLastAlert (fired_fp f) d' = Some (fired_at f)) fired
  /\ (forall fp, ~ In fp (List.map fired_fp fired) ->
        getLastAlert fp d' = getLastAlert fp d).
Proof.
  unfold triggerAlert, entries.
  pose proof (alertEach_records clock (groupByFingerprint errors) 0 d
                (groupByFingerprint_NoDup errors)) as H.
  pose proof (alertEach_fps clock (groupByFingerprint errors) 0 d) as Hfps.
  destruct (alertEach clock 0 (groupByFingerprint errors) d) as [d' fired].
  cbn [snd] in Hfps. destruct H as [Hlines Hother].
  rewrite Hfps. split; [apply groupByFingerprint_NoDup|]. split; [|exact Hother].
  clear Hfps Hother. induction Hlines as [|f g fired groups Hf _ IH]; constructor.
  - now destruct Hf as (_ & _ & _ & _ & Hf).
  - exact IH.
Qed.

(** X11: each line of an alert counts the events of the alerted list that
    carry its fingerprint, at least one, and shows the first of them. *)
Theorem triggerAlert_lines (clock : nat -> Z) (errors : list ErrorEntry)
    (config : ErrorConfig) (d : Disk) :
  Forall (fun f =>
            fired_count f = length (carrying (fired_fp f) errors)
            /\ (1 <= fired_count f)%nat
            /\ fired_sample f = head (carrying (fired_fp f) errors))
    (triggerAlert clock errors config d).2.
Proof.
  unfold triggerAlert, entries.
  pose proof (alertEach_records clock (groupByFingerprint errors) 0 d
                (groupByFingerprint_NoDup errors)) as H.
  destruct (alertEach clock 0 (groupByFingerprint errors) d) as [d' fired].
  cbn [snd]. destruct H as [Hlines _].
  assert (forall g, In g (groupByFingerprint errors) ->
                    g.2 = carrying g.1 errors /\ g.2 <> []) as Hgroups.
  { intros [fp g] Hg. now apply groupByFingerprint_entry. }
  induction Hlines as [|f g fired groups Hf _ IH]; constructor.
  - destruct Hf as (Hfp & Hcount & Hsample & _).
    destruct (Hgroups g (or_introl eq_refl)) as [Hg Hne].
    rewrite Hcount, Hsample, Hfp, <- Hg. repeat split.
    destruct g.2; [congruence|simpl; lia].
  - apply IH. intros g' Hg'. apply Hgroups. now right.
Qed.

(** X12: when [logError] fires an alert that names the fingerprint of the
    error it logged, a following [logError] of an error with the same
    fingerprint, evaluated no later than the silence period after the clock
    readings of that alert, fires nothing and leaves the alert records as
    they are. *)
Theorem repeat_within_silence_is_quiet (env1 env2 : LogEnv)
    (error1 error2 : ErrorInput) (d : Disk) :
  let '(entry1, d1, fired1) := logError env1 error1 d in
  firesFor (fingerprint entry1) fired1 = true ->
  generateFingerprint error2 = generateFingerprint error1 ->
  (forall i, env_now env2 - env_record env1 i
             <= silenceMinutes (loadErrorConfig d) * 60 * 1000) ->
  let '(_, d2, fired2) := logError env2 error2 d1 in
  fired2 = None /\ alertsFile d2 = alertsFile d1.
Proof.
  pose proof (logError_configFile env1 error1 d) as Hcfg.
  unfold logError in *.
  set (saved := saveErrors (loadErrors d ++ [makeEntry env1 error1]) d) in *.
  assert ((exists t i, t = env_record env1 i
            /\ (firesFor (fingerprint (makeEntry env1 error1))
                  (checkAlertThreshold (env_now env1) (env_record env1)
                     (makeEntry env1 error1) saved).2 = true ->
                getLastAlert (fingerprint (makeEntry env1 error1))
                  (checkAlertThreshold (env_now env1) (env_record env1)
                     (makeEntry env1 error1) saved).1 = Some t))
         \/ firesFor (fingerprint (makeEntry env1 error1))
              (checkAlertThreshold (env_now env1) (env_record env1)
                 (makeEntry env1 error1) saved).2 = false) as Hrec.
  { unfold checkAlertThreshold.
    destruct (alertThreshold _ <=? _); [|now right].
    destruct (outOfSilence _ _ _); [|now right].
    unfold triggerAlert, entries.
    pose proof (alertEach_records (env_record env1)
      (groupByFingerprint (recentErrors (loadErrorConfig saved) (env_now env1)
                             (loadErrors saved))) 0 saved
      (groupByFingerprint_NoDup _)) as H.
    destruct (alertEach _ _ _ _) as [d' fired]. destruct H as [Hlines _].
    cbn [fst snd].
    destruct (firesFor (fingerprint (makeEntry env1 error1)) (Some fired)) eqn:Hf;
      [|now right].
    left. apply firesFor_In in Hf. apply in_map_iff in Hf as (f & Hfp & Hin).
    clear -Hlines Hfp Hin.
    induction Hlines as [|f0 g fired groups Hf0 _ IH]; [destruct Hin|].
    destruct Hin as [->|Hin]; [|now apply IH].
    destruct Hf0 as (_ & _ & _ & (i & Hi) & Hlast).
    exists (fired_at f), i. split; [assumption|]. intros _. now rewrite <- Hfp. }
  destruct (checkAlertThreshold (env_now env1) (env_record env1)
              (makeEntry env1 error1) saved) as [d1 fired1].
  cbn [fst snd] in *. destruct Hcfg as (_ & Hload & _).
  intros Hfires Hsame Hclock.
  destruct Hrec as [(t & i & Ht & Hlast)|Hno]; [|congruence].
  specialize (Hlast Hfires).
  assert (checkAlertThreshold (env_now env2) (env_record env2)
            (makeEntry env2 error2)
            (saveErrors (loadErrors d1 ++ [makeEntry env2 error2]) d1)
          = (saveErrors (loadErrors d1 ++ [makeEntry env2 error2]) d1, None)) as Hquiet.
  { apply (silence_holds_for_triggering_fingerprint _ _ _ _ t).
    - simpl fingerprint. rewrite Hsame. exact Hlast.
    - change (loadErrorConfig (saveErrors _ d1)) with (loadErrorConfig d1).
      rewrite Hload, Ht. apply Hclock. }
  rewrite Hquiet. split; reflexivity.
Qed.

Lemma repeat_within_silence_is_quiet_witness :
  let '(_, d2, fired2) :=
    logError (Samples.at_ "e3" 2000) Samples.apiTimeout Samples.secondCall.1.2 in
  fired2 = None /\ alertsFile d2 = alertsFile Samples.secondCall.1.2.
Proof.
  pose proof (repeat_within_silence_is_quiet (Samples.at_ "e2" 1000)
                (Samples.at_ "e3" 2000) Samples.apiTimeout Samples.apiTimeout
                Samples.afterFirst) as H.
  change (logError (Samples.at_ "e2" 1000) Samples.apiTimeout Samples.afterFirst)
    with Samples.secondCall in H.
  destruct Samples.secondCall as [[entry1 d1] fired1] eqn:E.
  assert (firesFor (fingerprint entry1) fired1 = true) as Hfires.
  { apply (f_equal (fun r => firesFor (fingerprint r.1.1) r.2)) in E.
    cbn [fst snd] in E. rewrite <- E. vm_compute. reflexivity. }
  cbn [fst snd]. apply H; [exact Hfires|reflexivity|].
  intros i. vm_compute. discriminate.
Defined.

End ErrorMonitorProps.

(* ===================================================================== *)
(** ** More about the daemon *)
(* ===================================================================== *)

Module DaemonProps.
Import Js Daemon DaemonMore Notions TrackerFacts.

(** *** Phases append to the trace *)

Lemma appendsOnly_ret {A} (a : A) : appendsOnly (ret a).
Proof. intros [p tr]. unfold ret. simpl. now rewrite app_nil_r. Qed.

Lemma appendsOnly_emit e : appendsOnly (emit e).
Proof. intros [p tr]. reflexivity. Qed.

Lemma appendsOnly_getPrev : appendsOnly getPrev.
Proof. intros [p tr]. unfold getPrev. simpl. now rewrite app_nil_r. Qed.

Lemma appendsOnly_assign f : appendsOnly (assign f).
Proof. intros [p tr]. unfold assign. simpl. now rewrite app_nil_r. Qed.

Lemma appendsOnly_await {A} e (o : outcome A) : appendsOnly (await e o).
Proof. intros [p tr]. reflexivity. Qed.

Lemma appendsOnly_bind {A B} (m : M A) (k : A -> M B) :
  appendsOnly m -> (forall a, appendsOnly (k a)) -> appendsOnly (bind m k).
Proof.
  intros Hm Hk s. unfold bind. rewrite (Hm s).
  destruct (m (fresh (prevState s))) as [[a|msg] [p1 out1]]; cbn [fst snd prevState trace].
  - rewrite (Hk a {| prevState := p1; trace := trace s ++ out1 |}).
    rewrite (Hk a {| prevState := p1; trace := out1 |}).
    cbn [fst snd prevState trace]. now rewrite app_assoc.
  - reflexivity.
Qed.

Lemma appendsOnly_tryCatch (body : M unit) (handler : string -> M unit) :
  appendsOnly body -> (forall msg, appendsOnly (handler msg)) ->
  appendsOnly (tryCatch body handler).
Proof.
  intros Hm Hk s. unfold tryCatch. rewrite (Hm s).
  destruct (body (fresh (prevState s))) as [[a|msg] [p1 out1]]; cbn [fst snd prevState trace].
  - reflexivity.
  - rewrite (Hk msg {| prevState := p1; trace := trace s ++ out1 |}).
    rewrite (Hk msg {| prevState := p1; trace := out1 |}).
    cbn [fst snd prevState trace]. now rewrite app_assoc.
Qed.

Lemma appendsOnly_notifyEach repo failures : appendsOnly (notifyEach repo failures).
Proof.
  induction failures as [|f failures IH]; simpl.
  - apply appendsOnly_ret.
  - repeat (apply appendsOnly_bind; [apply appendsOnly_emit|intros _]). exact IH.
Qed.

(** Settle [appendsOnly] for a phase by following its structure. *)
Ltac appends :=
  repeat first
    [ apply appendsOnly_ret | apply appendsOnly_emit | apply appendsOnly_getPrev
    | apply appendsOnly_assign | apply appendsOnly_await
    | apply appendsOnly_notifyEach
    | apply appendsOnly_bind; [|intros ?]
    | apply appendsOnly_tryCatch; [|intros ?]
    | match goal with
      | |- appendsOnly (if ?c then _ else _) => destruct c
      | |- appendsOnly (match ?x with _ => _ end) => destruct x
      end ].

Lemma appendsOnly_checkBuilds env repo failed : appendsOnly (checkBuilds env repo failed).
Proof. unfold checkBuilds. appends. Qed.

Lemma appendsOnly_checkDeps config env count repo :
  appendsOnly (checkDeps config env count repo).
Proof. unfold checkDeps. appends. Qed.

Lemma appendsOnly_checkRelease env repo : appendsOnly (checkRelease env repo).
Proof. unfold checkRelease. appends. Qed.

(** *** The trace of a poll, phase by phase *)

Lemma notifyEach_fresh repo failures p :
  notifyEach repo failures (fresh p)
  = (Returns tt, {| prevState := p; trace := notifyTrace repo failures |}).
Proof.
  assert (forall s, notifyEach repo failures s
            = (Returns tt, {| prevState := prevState s;
                              trace := trace s ++ notifyTrace repo failures |})) as H.
  { induction failures as [|f failures IH]; intros s; simpl.
    - destruct s. unfold ret. simpl. now rewrite app_nil_r.
    - unfold bind, emit. rewrite IH. cbn [prevState trace].
      now rewrite <- !app_assoc. }
  rewrite H. reflexivity.
Qed.

Lemma checkBuilds_fresh env repo failed p :
  checkBuilds env repo failed (fresh p)
  = if (0 <? failed)%nat && differs failed (failedBuilds p) then
      match getFailedBuildDetails env with
      | Returns failures =>
          (Returns tt,
           {| prevState := p;
              trace := CallGetFailedBuildDetails repo
                       :: notifyTrace repo (take 3 failures) |})
      | Throws msg =>
          (Throws msg, {| prevState := p; trace := [CallGetFailedBuildDetails repo] |})
      end
    else (Returns tt, fresh p).
Proof.
  unfold checkBuilds, fresh. stepm.
  destruct ((0 <? failed)%nat && differs failed (failedBuilds p)); [|reflexivity].
  destruct (getFailedBuildDetails env) as [failures|msg]; [|reflexivity].
  stepm. rewrite appendsOnly_notifyEach. cbn [prevState trace].
  fold (fresh p). rewrite notifyEach_fresh. reflexivity.
Qed.

(** The body of [checkRepo] is its four steps in a row: each step starts
    from the [prevState] the one before left, the first error ends the
    body, and the trace is the traces of the steps, one after the other. *)
Lemma checkRepoBody_split config env count repo p :
  checkRepoBody config env count repo (fresh p)
  = match getRepoStatus env with
    | Throws msg =>
        (Throws msg, {| prevState := p; trace := [CallGetRepoStatus repo] |})
    | Returns failed =>
        let builds := checkBuilds env repo failed (fresh p) in
        match builds.1 with
        | Throws msg =>
            (Throws msg,
             {| prevState := p;
                trace := CallGetRepoStatus repo :: trace builds.2 |})
        | Returns _ =>
            let deps := checkDeps config env count repo (fresh p) in
            match deps.1 with
            | Throws msg =>
                (Throws msg,
                 {| prevState := prevState deps.2;
                    trace := CallGetRepoStatus repo
                             :: trace builds.2 ++ trace deps.2 |})
            | Returns _ =>
                let release := checkRelease env repo (fresh (prevState deps.2)) in
                (match release.1 with
                 | Returns _ => Returns failed
                 | Throws msg => Throws msg
                 end,
                 {| prevState := prevState release.2;
                    trace := CallGetRepoStatus repo
                             :: trace builds.2 ++ trace deps.2 ++ trace release.2 |})
            end
        end
    end.
Proof.
  unfold checkRepoBody, fresh. stepm. cbn [app].
  destruct (getRepoStatus env) as [failed|msg]; [|reflexivity]. stepm.
  rewrite (appendsOnly_checkBuilds env repo failed
             {| prevState := p; trace := [CallGetRepoStatus repo] |}).
  cbn [prevState trace]. fold (fresh p).
  assert (prevState (checkBuilds env repo failed (fresh p)).2 = p) as Hp.
  { rewrite checkBuilds_fresh.
    destruct ((0 <? failed)%nat && differs failed (failedBuilds p)); [|reflexivity].
    destruct (getFailedBuildDetails env); reflexivity. }
  destruct (checkBuilds env repo failed (fresh p)) as [[[]|msg] [pb outb]];
    cbn [fst snd prevState trace] in *; subst pb; [|reflexivity].
  rewrite (appendsOnly_checkDeps config env count repo
             {| prevState := p; trace := [CallGetRepoStatus repo] ++ outb |}).
  cbn [prevState trace]. fold (fresh p).
  destruct (checkDeps config env count repo (fresh p)) as [[[]|msg] [pd outd]];
    cbn [fst snd prevState trace]; [|now rewrite <- app_assoc].
  rewrite (appendsOnly_checkRelease env repo
             {| prevState := pd; trace := ([CallGetRepoStatus repo] ++ outb) ++ outd |}).
  cbn [prevState trace]. fold (fresh pd).
  destruct (checkRelease env repo (fresh pd)) as [[[]|msg] [pr outr]];
    cbn [fst snd prevState trace]; unfold ret; rewrite <- !app_assoc; reflexivity.
Qed.

Lemma checkRepo_trace config env repo st :
  (checkRepo config env repo st).2
  = let body := checkRepoBody config env (checkCount st) repo
                  (fresh (default emptyState (repoState st !! repo))) in
    trace body.2 ++ match body.1 with
                    | Throws msg => [LogError repo msg]
                    | Returns _ => []
                    end.
Proof.
  unfold checkRepo, fresh. cbv zeta.
  destruct (checkRepoBody _ _ _ _ _) as [[failed|msg] l]; cbn [fst snd];
    [now rewrite app_nil_r|reflexivity].
Qed.

(** The dependency step on its own. *)
Lemma checkDeps_trace config env count repo p :
  let out := trace (checkDeps config env count repo (fresh p)).2 in
  Forall (fun e => is_depsEffect e = true /\ repoOf e = Some repo) out
  /\ ((count mod 4 =? 0)%nat = false -> out = [])
  /\ (length (prRequests out) <= 1)%nat
  /\ Forall (fun updates => updates <> [] /\ Forall (fun u => eligible config u = true) updates)
       (prRequests out)
  /\ (prRequests out <> [] -> truthy_num (pendingDepsPR p) = false).
Proof.
  unfold checkDeps, fresh. stepm.
  destruct (count mod 4 =? 0)%nat; stepm.
  2:{ simpl. repeat split; auto; try constructor. congruence. }
  destruct (scanDependencies env) as [deps|msg]; stepm.
  2:{ simpl. repeat split; auto; try congruence; repeat constructor. }
  destruct (autoUpdates deps) as [[|u us]|]; stepm.
  1,3: simpl; repeat split; auto; try congruence; repeat constructor.
  destruct (autoUpdate_minor config || autoUpdate_patch config); stepm.
  2:{ simpl. repeat split; auto; try congruence; repeat constructor. }
  destruct ((0 <? length (List.filter (eligible config) (u :: us)))%nat
            && negb (truthy_num (pendingDepsPR p))) eqn:Hguard; stepm.
  2:{ simpl. repeat split; auto; try congruence; repeat constructor. }
  apply andb_prop in Hguard as [Hsome Hpending].
  apply negb_true_iff in Hpending. apply Nat.ltb_lt in Hsome.
  assert (List.filter (eligible config) (u :: us) <> []) as Hne.
  { intros H. rewrite H in Hsome. simpl in Hsome. lia. }
  assert (Forall (fun u0 => eligible config u0 = true)
            (List.filter (eligible config) (u :: us))) as Hall.
  { apply List.Forall_forall. intros x Hx. now apply filter_In in Hx as [_ Hx]. }
  destruct (createDependencyUpdatePR env) as [[pr|]|msg]; stepm; simpl;
    (split; [repeat constructor|]); (split; [discriminate|]);
    (split; [lia|]); (split; [repeat constructor; assumption|]); auto.
Qed.

(** The release step on its own. *)
Lemma checkRelease_trace env repo p :
  Forall (fun e => e = CallIsReleaseNeeded repo
                   \/ exists why, e = LogReleaseNeeded repo why)
    (trace (checkRelease env repo (fresh p)).2).
Proof.
  unfold checkRelease, fresh. stepm.
  destruct (isReleaseNeeded env) as [rc|msg]; stepm;
    [destruct (needed rc && negb (releaseNotified p)); stepm|]; simpl;
    repeat (apply List.Forall_cons;
            [(left; reflexivity) || (right; eexists; reflexivity)|]);
    apply List.Forall_nil.
Qed.

(** The trace of a poll: the status call, then what the build step, the
    dependency step and the release step append, then the error line if the
    poll failed. *)
Lemma checkRepo_shape config env repo st :
  let prev := default emptyState (repoState st !! repo) in
  exists tb td tr te,
    (checkRepo config env repo st).2
    = CallGetRepoStatus repo :: tb ++ td ++ tr ++ te
    /\ (tb = []
        \/ (exists msg, getFailedBuildDetails env = Throws msg
                        /\ tb = [CallGetFailedBuildDetails repo])
        \/ exists failures,
             getFailedBuildDetails env = Returns failures
             /\ tb = CallGetFailedBuildDetails repo
                     :: notifyTrace repo (take 3 failures))
    /\ (td = []
        \/ td = trace (checkDeps config env (checkCount st) repo (fresh prev)).2)
    /\ Forall (fun e => e = CallIsReleaseNeeded repo
                        \/ exists why, e = LogReleaseNeeded repo why) tr
    /\ (te = [] \/ exists msg, te = [LogError repo msg]).
Proof.
  intros prev. rewrite checkRepo_trace. fold prev. cbv zeta.
  rewrite checkRepoBody_split.
  destruct (getRepoStatus env) as [failed|msg]; cbn [fst snd trace].
  2:{ exists [], [], [], [LogError repo msg]. simpl. repeat split; eauto. }
  cbv zeta.
  assert (trace (checkBuilds env repo failed (fresh prev)).2 = []
          \/ (exists msg, getFailedBuildDetails env = Throws msg
               /\ trace (checkBuilds env repo failed (fresh prev)).2
                  = [CallGetFailedBuildDetails repo])
          \/ exists failures,
               getFailedBuildDetails env = Returns failures
               /\ trace (checkBuilds env repo failed (fresh prev)).2
                  = CallGetFailedBuildDetails repo
                    :: notifyTrace repo (take 3 failures)) as Hb.
  { rewrite checkBuilds_fresh.
    destruct ((0 <? failed)%nat && differs failed (failedBuilds prev)); [|now left].
    destruct (getFailedBuildDetails env) as [failures|msg]; simpl; eauto. }
  destruct (checkBuilds env repo failed (fresh prev)) as [[[]|msg] [pb tb]];
    cbn [fst snd trace] in *.
  2:{ exists tb, [], [], [LogError repo msg]. simpl. repeat split; eauto. }
  destruct (checkDeps config env (checkCount st) repo (fresh prev))
    as [[[]|msg] [pd td]] eqn:Ed; cbn [fst snd trace prevState] in *.
  2:{ exists tb, td, [], [LogError repo msg]. simpl.
      rewrite <- !app_assoc. repeat split; eauto. }
  pose proof (checkRelease_trace env repo pd) as Hr.
  destruct (checkRelease env repo (fresh pd)) as [[[]|msg] [pr tr]];
    cbn [fst snd trace] in *.
  - exists tb, td, tr, []. rewrite !app_nil_r. repeat split; eauto.
  - exists tb, td, tr, [LogError repo msg]. simpl. rewrite <- !app_assoc.
    repeat split; eauto.
Qed.

(** *** What a poll does and never does *)

(** X13: when the status of a repository cannot be fetched, the poll does
    nothing else: it calls no other collaborator, logs the error, reports
    failure, and leaves the whole module state as it was. *)
Theorem failed_status_fetch_changes_nothing (config : Config) (env : PollEnv)
    (repo : string) (st : State) (msg : string) :
  getRepoStatus env = Throws msg ->
  checkRepo config env repo st
  = (st, Failed msg, [CallGetRepoStatus repo; LogError repo msg]).
Proof.
  intros H. unfold checkRepo, checkRepoBody. stepm. rewrite H. stepm. simpl.
  destruct st as [running count last repos]. simpl.
  repeat f_equal. destruct (repos !! repo) as [q|] eqn:Hq; [|reflexivity].
  simpl. now apply insert_id.
Qed.

Lemma failed_status_fetch_changes_nothing_witness :
  checkRepo DaemonSamples.oneRepo DaemonSamples.unreachable "o/r" initial
  = (initial, Failed "ECONNRESET",
     [CallGetRepoStatus "o/r"; LogError "o/r" "ECONNRESET"]).
Proof.
  apply (failed_status_fetch_changes_nothing DaemonSamples.oneRepo
           DaemonSamples.unreachable "o/r" initial "ECONNRESET").
  reflexivity.
Defined.

Lemma notifyTrace_count repo failures :
  length (List.filter is_notifyBuild (notifyTrace repo failures)) = length failures.
Proof. induction failures as [|f failures IH]; simpl; [reflexivity|now rewrite IH]. Qed.

Lemma filter_none {A} (p : A -> bool) l :
  Forall (fun x => p x = false) l -> List.filter p l = [].
Proof.
  induction 1 as [|x l Hx _ IH]; simpl; [reflexivity|]. now rewrite Hx.
Qed.

Lemma checkDeps_effects config env count repo p :
  Forall (fun e => is_depsEffect e = true /\ repoOf e = Some repo)
    (trace (checkDeps config env count repo (fresh p)).2).
Proof. apply (checkDeps_trace config env count repo p). Qed.

(** X14: a poll sends at most 3 build-failure notifications, however many
    failed builds there are: one for each of the first 3 failures fetched
    when the failure count is new, none otherwise. *)
Theorem at_most_three_notifications (config : Config) (env : PollEnv)
    (repo : string) (st : State) :
  let out := (checkRepo config env repo st).2 in
  let sent := length (List.filter is_notifyBuild out) in
  (sent <= 3)%nat
  /\ (newBuildFailure repo out = false -> sent = 0%nat)
  /\ (forall failures,
        newBuildFailure repo out = true ->
        getFailedBuildDetails env = Returns failures ->
        sent = Nat.min 3 (length failures)).
Proof.
  intros out sent. subst out sent.
  destruct (checkRepo_shape config env repo st)
    as (tb & td & tr & te & E & Hb & Hd & Hr & He).
  rewrite E. clear E.
  assert (List.filter is_notifyBuild td = []) as Hfd.
  { apply filter_none. destruct Hd as [->| ->]; [constructor|].
    eapply Forall_impl; [apply checkDeps_effects|].
    intros e [He1 _]. destruct e; try discriminate; reflexivity. }
  assert (List.filter is_notifyBuild tr = []) as Hfr.
  { apply filter_none. eapply Forall_impl; [exact Hr|].
    intros e [-> | [why ->]]; reflexivity. }
  assert (List.filter is_notifyBuild te = []) as Hfe
    by (destruct He as [->|[msg ->]]; reflexivity).
  assert (newBuildFailure repo (CallGetRepoStatus repo :: tb ++ td ++ tr ++ te)
          = existsb (is_buildFailure repo) tb) as Hnew.
  { unfold newBuildFailure. simpl. rewrite !existsb_app.
    assert (existsb (is_buildFailure repo) td = false) as ->.
    { apply not_true_is_false. intros H. apply existsb_exists in H as (e & He1 & He2).
      destruct Hd as [->| ->]; [destruct He1|].
      pose proof (checkDeps_effects config env (checkCount st) repo
                    (default emptyState (repoState st !! repo))) as Hall.
      rewrite List.Forall_forall in Hall. destruct (Hall e He1) as [H1 _].
      destruct e; discriminate. }
    assert (existsb (is_buildFailure repo) tr = false) as ->.
    { apply not_true_is_false. intros H. apply existsb_exists in H as (e & He1 & He2).
      rewrite List.Forall_forall in Hr.
      destruct (Hr e He1) as [-> | [why ->]]; discriminate. }
    assert (existsb (is_buildFailure repo) te = false) as ->
      by (destruct He as [->|[msg ->]]; reflexivity).
    now rewrite !orb_false_r. }
  rewrite Hnew. simpl List.filter.
  rewrite !List.filter_app, Hfd, Hfr, Hfe, !app_nil_r.
  destruct Hb as [->|[(msg & Hfail & ->)|(failures & Hfail & ->)]]; simpl.
  - repeat split; auto; discriminate.
  - repeat split; auto; try discriminate.
    intros failures _ H. congruence.
  - rewrite notifyTrace_count, length_take. rewrite String.eqb_refl.
    split; [lia|]. split; [discriminate|].
    intros failures' _ H. rewrite Hfail in H. injection H as <-. reflexivity.
Qed.

Lemma at_most_three_notifications_witness :
  length (List.filter is_notifyBuild
            (checkRepo DaemonSamples.oneRepo MoreSamples.fiveFailures "o/r" initial).2)
  = 3%nat.
Proof.
  destruct (at_most_three_notifications DaemonSamples.oneRepo
              MoreSamples.fiveFailures "o/r" initial) as (_ & _ & H).
  apply (H _ eq_refl eq_refl).
Defined.

Lemma eligible_kinds config u :
  eligible config u = true -> updateType u = "minor" \/ updateType u = "patch".
Proof.
  unfold eligible. intros H. apply orb_prop in H as [H|H];
    apply andb_prop in H as [H _]; apply String.eqb_eq in H; auto.
Qed.

Lemma prRequests_app out1 out2 :
  prRequests (out1 ++ out2) = prRequests out1 ++ prRequests out2.
Proof.
  unfold prRequests. apply omap_app.
Qed.

Lemma prRequests_none out :
  Forall (fun e => is_depsEffect e = false) out -> prRequests out = [].
Proof.
  induction 1 as [|e out He _ IH]; [reflexivity|].
  destruct e; try discriminate; exact IH.
Qed.

Lemma notifyTrace_no_deps repo failures :
  Forall (fun e => is_depsEffect e = false) (notifyTrace repo failures).
Proof. induction failures as [|f l IH]; simpl; repeat constructor. exact IH. Qed.

(** What a poll asks [createDependencyUpdatePR] for is what its dependency
    step asks for. *)
Lemma checkRepo_prRequests config env repo st :
  prRequests (checkRepo config env repo st).2 = []
  \/ prRequests (checkRepo config env repo st).2
     = prRequests (trace (checkDeps config env (checkCount st) repo
                            (fresh (default emptyState (repoState st !! repo)))).2).
Proof.
  destruct (checkRepo_shape config env repo st)
    as (tb & td & tr & te & E & Hb & Hd & Hr & He).
  rewrite E. change (CallGetRepoStatus repo :: tb ++ td ++ tr ++ te)
    with ([CallGetRepoStatus repo] ++ tb ++ td ++ tr ++ te).
  rewrite !prRequests_app.
  assert (prRequests tb = []) as ->.
  { destruct Hb as [->|[(msg & _ & ->)|(failures & _ & ->)]]; try reflexivity.
    apply prRequests_none. constructor; [reflexivity|apply notifyTrace_no_deps]. }
  assert (prRequests tr = []) as ->.
  { apply prRequests_none. eapply Forall_impl; [exact Hr|].
    intros e [-> | [why ->]]; reflexivity. }
  assert (prRequests te = []) as ->
    by (destruct He as [->|[msg ->]]; reflexivity).
  simpl. rewrite app_nil_r. destruct Hd as [->| ->]; auto.
Qed.

(** X15: a poll asks for at most one dependency-update pull request, only
    when no pull request is pending for the repository and the check count
    is a multiple of 4, and only for a list of updates that is not empty
    and holds minor and patch updates alone, each of a kind the
    configuration enables: never a major update. *)
Theorem pull_request_only_for_enabled_updates (config : Config) (env : PollEnv)
    (repo : string) (st : State) :
  let requests := prRequests (checkRepo config env repo st).2 in
  (length requests <= 1)%nat
  /\ Forall (fun updates =>
               updates <> []
               /\ Forall (fun u => eligible config u = true
                                   /\ (updateType u = "minor" \/ updateType u = "patch"))
                    updates) requests
  /\ (requests <> [] ->
        truthy_num (storedPendingPR st repo) = false
        /\ (checkCount st mod 4 = 0)%nat).
Proof.
  intros requests. subst requests.
  pose proof (checkDeps_trace config env (checkCount st) repo
                (default emptyState (repoState st !! repo))) as H.
  cbv zeta in H. destruct H as (_ & Hmod & Hlen & Hall & Hpend).
  destruct (checkRepo_prRequests config env repo st) as [-> | ->].
  - split; [simpl; lia|]. split; [constructor|]. congruence.
  - split; [exact Hlen|]. split.
    + eapply Forall_impl; [exact Hall|]. intros updates [Hne Hel].
      split; [assumption|]. eapply Forall_impl; [exact Hel|].
      intros u Hu. split; [assumption|]. now apply (eligible_kinds config).
    + intros Hne. split; [now apply Hpend|].
      destruct (checkCount st mod 4 =? 0)%nat eqn:E.
      * now apply Nat.eqb_eq.
      * rewrite (Hmod eq_refl) in Hne. now destruct Hne.
Qed.

Lemma pull_request_only_for_enabled_updates_witness :
  prRequests (checkRepo DaemonSamples.oneRepo MoreSamples.threeKinds "o/r"
                MoreSamples.fourthCycle).2
  = [[{| package := "axios"; updateType := "minor"; shouldAutoUpdate := true |};
      {| package := "lodash"; updateType := "patch"; shouldAutoUpdate := true |}]]
  /\ truthy_num (storedPendingPR MoreSamples.fourthCycle "o/r") = false.
Proof.
  split; [vm_compute; reflexivity|].
  apply (pull_request_only_for_enabled_updates DaemonSamples.oneRepo
           MoreSamples.threeKinds "o/r" MoreSamples.fourthCycle).
  vm_compute. discriminate.
Defined.

(** X16: in a cycle whose number is not a multiple of 4 a poll does not
    scan the dependencies and does nothing about pull requests. *)
Theorem dependencies_every_fourth_check (config : Config) (env : PollEnv)
    (repo : string) (st : State) :
  (checkCount st mod 4 <> 0)%nat ->
  Forall (fun e => is_depsEffect e = false) (checkRepo config env repo st).2.
Proof.
  intros Hmod. apply Nat.eqb_neq in Hmod.
  pose proof (checkDeps_trace config env (checkCount st) repo
                (default emptyState (repoState st !! repo))) as H.
  cbv zeta in H. destruct H as (_ & Hnone & _). specialize (Hnone Hmod).
  destruct (checkRepo_shape config env repo st)
    as (tb & td & tr & te & E & Hb & Hd & Hr & He).
  rewrite E. constructor; [reflexivity|].
  apply Forall_app. split.
  { destruct Hb as [->|[(msg & _ & ->)|(failures & _ & ->)]];
      repeat constructor. apply notifyTrace_no_deps. }
  apply Forall_app. split.
  { destruct Hd as [->| ->]; [constructor|]. rewrite Hnone. constructor. }
  apply Forall_app. split.
  { eapply Forall_impl; [exact Hr|]. intros e [-> | [why ->]]; reflexivity. }
  destruct He as [->|[msg ->]]; repeat constructor.
Qed.

Lemma dependencies_every_fourth_check_witness :
  Forall (fun e => is_depsEffect e = false)
    (checkRepo DaemonSamples.oneRepo MoreSamples.threeKinds "o/r"
       MoreSamples.firstCycle).2.
Proof.
  apply (dependencies_every_fourth_check DaemonSamples.oneRepo
           MoreSamples.threeKinds "o/r" MoreSamples.firstCycle).
  vm_compute. lia.
Defined.

Lemma notifyTrace_own repo failures :
  Forall (fun e => repoOf e = Some repo) (notifyTrace repo failures).
Proof.
  induction failures as [|f l IH]; simpl; repeat constructor. exact IH.
Qed.

Lemma checkRepo_own_repository (config : Config) (env : PollEnv)
    (repo : string) (st : State) :
  let '(st', _, out) := checkRepo config env repo st in
  Forall (fun e => repoOf e = Some repo) out
  /\ (forall other, other <> repo -> repoState st' !! other = repoState st !! other)
  /\ isRunning st' = isRunning st /\ checkCount st' = checkCount st
  /\ lastCheck st' = lastCheck st.
Proof.
  pose proof (checkRepo_facts config env repo st) as F.
  destruct (checkRepo_shape config env repo st)
    as (tb & td & tr & te & E & Hb & Hd & Hr & He).
  destruct (checkRepo config env repo st) as [[st' result] out].
  cbn [snd] in E. destruct F as (_ & _ & (H1 & H2 & H3) & Hother & _).
  split; [|split; [intros other Ho; now apply Hother|auto]].
  subst out. constructor; [reflexivity|].
  apply Forall_app. split.
  { destruct Hb as [->|[(msg & _ & ->)|(failures & _ & ->)]];
      repeat constructor. apply notifyTrace_own. }
  apply Forall_app. split.
  { destruct Hd as [->| ->]; [constructor|].
    eapply Forall_impl; [apply checkDeps_effects|]. now intros e [_ H]. }
  apply Forall_app. split.
  { eapply Forall_impl; [exact Hr|]. intros e [-> | [why ->]]; reflexivity. }
  destruct He as [->|[msg ->]]; repeat constructor.
Qed.


(** *** The release flag *)

Lemma checkRepoBody_release_kept config env count repo p :
  releaseNotified p = true ->
  releaseNotified
    (prevState (checkRepoBody config env count repo (fresh p)).2) = true.
Proof.
  intros Hp. rewrite checkRepoBody_split.
  destruct (getRepoStatus env) as [failed|msg]; [|exact Hp]. cbv zeta.
  destruct (checkBuilds env repo failed (fresh p)) as [[[]|msg] lb];
    cbn [fst snd prevState]; [|exact Hp].
  destruct (checkDeps_run config env count repo (fresh p))
    as (rd & pd & outd & Ed & _ & Hflag & _).
  rewrite Ed. unfold fresh in Hflag. cbn [fst snd prevState] in *.
  rewrite Hp in Hflag.
  destruct rd as [[]|msg]; cbn [prevState]; [|exact Hflag].
  destruct (checkRelease_run env repo (fresh pd))
    as (rr & pr & outr & Er & _ & _ & _ & _ & _ & _ & Hrel).
  rewrite Er. unfold fresh in Hrel. cbn [fst snd prevState] in *.
  destruct (isReleaseNeeded env) as [rc|msg].
  - destruct Hrel as [_ ->]. now rewrite Hflag.
  - destruct Hrel as [_ ->]. exact Hflag.
Qed.

Lemma newRelease_own_repo repo other out :
  Forall (fun e => repoOf e = Some other) out -> other <> repo ->
  newRelease repo out = false.
Proof.
  intros Hall Hne. unfold newRelease. apply not_true_is_false. intros H.
  apply existsb_exists in H as (e & He & Hrel).
  rewrite List.Forall_forall in Hall. specialize (Hall e He).
  destruct e; try discriminate. simpl in *.
  apply String.eqb_eq in Hrel. congruence.
Qed.

Lemma checkRepo_release_kept config env r st repo :
  storedReleaseNotified st repo = true ->
  storedReleaseNotified (checkRepo config env r st).1.1 repo = true
  /\ newRelease repo (checkRepo config env r st).2 = false.
Proof.
  intros Hset.
  pose proof (checkRepo_own_repository config env r st) as Hown.
  pose proof (checkRepo_facts config env r st) as F.
  pose proof (checkRepoBody_release_kept config env (checkCount st) r
                (default emptyState (repoState st !! r))) as Hkept.
  unfold checkRepo in *. unfold fresh in Hkept.
  destruct (checkRepoBody config env (checkCount st) r
              {| prevState := default emptyState (repoState st !! r); trace := [] |})
    as [[failed|msg] l]; cbn [fst snd prevState] in *;
    destruct Hown as (Hall & Hother & _);
    destruct F as (_ & _ & _ & _ & _ & _ & _ & Hnew).
  - destruct (String.eqb_spec r repo) as [->|Hne].
    + split.
      * unfold storedReleaseNotified in *. cbn [repoState].
        rewrite lookup_insert_eq. simpl. now apply Hkept.
      * apply not_true_is_false. intros H. destruct (Hnew H) as [Hoff _].
        congruence.
    + split; [|now apply (newRelease_own_repo repo r)].
      unfold storedReleaseNotified in *. now rewrite Hother by congruence.
  - destruct (String.eqb_spec r repo) as [->|Hne].
    + split.
      * unfold storedReleaseNotified in *. cbn [repoState].
        destruct (repoState st !! repo) as [q|] eqn:Hq; [|now rewrite Hq].
        rewrite lookup_insert_eq. simpl. now apply Hkept.
      * apply not_true_is_false. intros H. destruct (Hnew H) as [Hoff _].
        congruence.
    + split; [|now apply (newRelease_own_repo repo r)].
      unfold storedReleaseNotified in *. now rewrite Hother by congruence.
Qed.

Lemma step_release_kept config l s repo :
  storedReleaseNotified (state s) repo = true ->
  storedReleaseNotified (state (step config l s).1) repo = true
  /\ newRelease repo (step config l s).2 = false.
Proof.
  intros Hset. destruct l as [now|i env now]; simpl.
  - destruct (isRunning (state s)); [auto|].
    destruct (targetRepos config); simpl; auto.
  - destruct (cycles s !! i) as [[[|r rest] done]|]; [auto| |auto].
    destruct (checkRepo_release_kept config env r (state s) repo Hset) as [H1 H2].
    destruct (checkRepo config env r (state s)) as [[st result] out].
    cbn [fst snd] in *. destruct rest; simpl; [|auto].
    split; [assumption|]. unfold newRelease in *. rewrite existsb_app, H2.
    reflexivity.
Qed.

(** X18: once a needed release has been announced for a repository, the
    flag stays set and the release is never announced for it again,
    whatever the timer and the collaborators do afterwards. *)
Theorem release_is_announced_once (config : Config) (repo : string)
    (ls : list Label) (s : System) :
  storedReleaseNotified (state s) repo = true ->
  storedReleaseNotified (state (run config ls s).1) repo = true
  /\ newRelease repo (run config ls s).2 = false.
Proof.
  revert s. induction ls as [|l ls IH]; intros s Hset; simpl; [auto|].
  destruct (step_release_kept config l s repo Hset) as [H1 H2].
  destruct (step config l s) as [s1 out1]. cbn [fst snd] in *.
  destruct (IH s1 H1) as [H3 H4].
  destruct (run config ls s1) as [s2 out2]. cbn [fst snd] in *.
  split; [assumption|]. unfold newRelease in *. now rewrite existsb_app, H2, H4.
Qed.

Lemma release_is_announced_once_witness :
  let env := DaemonSamples.sees 0 7 DaemonSamples.featuresSinceRelease in
  let s := (run DaemonSamples.oneRepo (DaemonSamples.cycle env) boot).1 in
  let later := run DaemonSamples.oneRepo
                 (DaemonSamples.cycle env ++ DaemonSamples.cycle env) s in
  newRelease "o/r" (run DaemonSamples.oneRepo (DaemonSamples.cycle env) boot).2 = true
  /\ storedReleaseNotified (state later.1) "o/r" = true
  /\ newRelease "o/r" later.2 = false.
Proof.
  intros env s later. split; [vm_compute; reflexivity|].
  apply (release_is_announced_once DaemonSamples.oneRepo "o/r").
  vm_compute. reflexivity.
Defined.

(** *** The status line *)

(** X19: for an uptime of at least 0 seconds the status line shows whole
    hours and fewer than 60 minutes, and together they are the uptime
    rounded down to the minute. *)
Theorem uptime_hours_and_minutes (uptime : Z) :
  0 <= uptime ->
  0 <= uptimeHours uptime
  /\ 0 <= uptimeMins uptime < 60
  /\ uptimeHours uptime * 3600 + uptimeMins uptime * 60 <= uptime
     < uptimeHours uptime * 3600 + uptimeMins uptime * 60 + 60.
Proof.
  intros H. unfold uptimeHours, uptimeMins.
  Z.to_euclidean_division_equations. lia.
Qed.

Lemma uptime_hours_and_minutes_witness :
  uptimeHours 7325 = 2 /\ uptimeMins 7325 = 2
  /\ uptimeHours 7325 * 3600 + uptimeMins 7325 * 60 <= 7325.
Proof.
  destruct (uptime_hours_and_minutes 7325) as (_ & _ & H & _); [lia|].
  repeat split; [exact H].
Defined.

(** *** A whole cycle *)

Lemma polled_app out1 out2 : polled (out1 ++ out2) = polled out1 ++ polled out2.
Proof. apply omap_app. Qed.

Lemma polled_none out :
  Forall (fun e => is_statusCall e = false) out -> polled out = [].
Proof.
  induction 1 as [|e l He _ IH]; [reflexivity|].
  unfold polled in *. simpl. destruct e; try discriminate; exact IH.
Qed.

Lemma checkRepo_polled config env repo st :
  polled (checkRepo config env repo st).2 = [repo].
Proof.
  destruct (checkRepo_shape config env repo st)
    as (tb & td & tr & te & -> & Hb & Hd & Hr & He).
  change (repo :: polled (tb ++ td ++ tr ++ te) = [repo]). f_equal.
  rewrite !polled_app.
  assert (polled tb = []) as ->.
  { apply polled_none.
    destruct Hb as [->|[(msg & _ & ->)|(failures & _ & ->)]];
      repeat constructor.
    induction (take 3 failures); simpl; repeat constructor. assumption. }
  assert (polled td = []) as ->.
  { apply polled_none. destruct Hd as [->| ->]; [constructor|].
    eapply Forall_impl; [apply checkDeps_effects|].
    intros e [H _]. now destruct e. }
  assert (polled tr = []) as ->.
  { apply polled_none. eapply Forall_impl; [exact Hr|].
    intros e [-> | [why ->]]; reflexivity. }
  destruct He as [->|[msg ->]]; reflexivity.
Qed.

Lemma loop_polls config polls :
  forall st r rest done,
    length polls = length (r :: rest) ->
    let s := {| state := st;
                cycles := [{| remaining := r :: rest; results := done |}] |} in
    let after := run config (resumes polls) s in
    polled after.2 = r :: rest
    /\ cycles after.1 = []
    /\ isRunning (state after.1) = false
    /\ checkCount (state after.1) = checkCount st
    /\ (forall d, lastCheck (state after.1) = Some (List.last (List.map snd polls) d))
    /\ exists ok,
         (ok <= length done + length (r :: rest))%nat
         /\ last after.2
            = Some (LogCheckComplete ok (length done + length (r :: rest))).
Proof.
  induction polls as [|[env now] polls IH]; intros st r rest done Hlen;
    [discriminate|].
  cbv zeta. change (resumes ((env, now) :: polls))
    with (Resume 0 env now :: resumes polls).
  pose proof (checkRepo_polled config env r st) as Hp.
  pose proof (checkRepo_facts config env r st) as F.
  cbn [run step cycles state].
  change ([{| remaining := r :: rest; results := done |}] !! 0%nat)
    with (Some {| remaining := r :: rest; results := done |}).
  cbv beta iota.
  destruct (checkRepo config env r st) as [[st1 result] out].
  destruct F as (_ & _ & (_ & Hc & _) & _). cbn [snd] in Hp.
  destruct rest as [|r' rest].
  - destruct polls; [|discriminate]. simpl.
    rewrite app_nil_r, polled_app, Hp. repeat split; auto.
    eexists. split; [|rewrite last_snoc; repeat f_equal; rewrite length_app; simpl; lia].
    etransitivity; [apply List.filter_length_le|]. rewrite length_app. simpl. lia.
  - specialize (IH st1 r' rest (done ++ [(r, result)])).
    cbv zeta in IH. simpl in Hlen.
    destruct IH as (H1 & H2 & H3 & H4 & H5 & ok & Hok & Hlast); [simpl; lia|].
    change (<[0%nat := {| remaining := r' :: rest; results := done ++ [(r, result)] |}]>
              [{| remaining := r :: r' :: rest; results := done |}])
      with [{| remaining := r' :: rest; results := done ++ [(r, result)] |}].
    destruct (run config (resumes polls)
                {| state := st1;
                   cycles := [{| remaining := r' :: rest;
                                 results := done ++ [(r, result)] |}] |})
      as [s2 out2].
    cbn [fst snd] in *. rewrite polled_app, Hp, H1.
    repeat split; auto; [congruence| |].
    + intros d. destruct polls as [|p polls]; [discriminate|]. apply (H5 d).
    + exists ok. rewrite length_app in *. simpl in *.
      replace (length done + S (S (length rest)))%nat
        with (length done + 1 + S (length rest))%nat by lia.
      split; [exact Hok|].
      destruct out2 as [|e out2]; [discriminate|].
      rewrite last_app. rewrite Hlast. reflexivity.
Qed.

(** X20: a timer tick that finds no cycle running starts one, and once the
    cycle has been resumed for each target it has fetched the status of
    every configured target exactly once, in the configured order; the
    cycle is then over, the flag is clear, the check count has grown by
    one, the time of the last check is the end of the cycle, and the last
    line logged is the summary with the number of targets. *)
Theorem cycle_polls_every_target_once (config : Config) (now : Z)
    (polls : list (PollEnv * Z)) (s : System) :
  isRunning (state s) = false -> cycles s = [] ->
  length polls = length (targetRepos config) ->
  let after := run config (Tick now :: resumes polls) s in
  polled after.2 = targetRepos config
  /\ cycles after.1 = []
  /\ isRunning (state after.1) = false
  /\ checkCount (state after.1) = S (checkCount (state s))
  /\ lastCheck (state after.1) = Some (List.last (List.map snd polls) now)
  /\ exists ok,
       (ok <= length (targetRepos config))%nat
       /\ last after.2 = Some (LogCheckComplete ok (length (targetRepos config))).
Proof.
  intros Hidle Hnone Hlen. cbv zeta. destruct s as [st cs]. simpl in *.
  subst cs. rewrite Hidle.
  destruct (targetRepos config) as [|r rest] eqn:Ht.
  - destruct polls; [|discriminate]. simpl. repeat split.
    exists 0%nat. split; [lia|reflexivity].
  - cbn [app].
    destruct (loop_polls config polls
                {| isRunning := true; checkCount := S (checkCount st);
                   lastCheck := lastCheck st; repoState := repoState st |}
                r rest [] Hlen)
      as (H1 & H2 & H3 & H4 & H5 & ok & Hok & Hlast).
    destruct (run config (resumes polls) _) as [s2 out2].
    cbn [fst snd] in *. repeat split; auto.
    exists ok. split; [exact Hok|].
    destruct out2 as [|e out2]; [discriminate|]. exact Hlast.
Qed.

Lemma cycle_polls_every_target_once_witness :
  let after := run MoreSamples.twoRepos
                 (Tick 0 :: resumes [(DaemonSamples.unreachable, 10);
                                     (MoreSamples.fiveFailures, 20)]) boot in
  polled after.2 = ["o/a"; "o/b"]
  /\ isRunning (state after.1) = false
  /\ lastCheck (state after.1) = Some 20.
Proof.
  intros after.
  destruct (cycle_polls_every_target_once MoreSamples.twoRepos 0
              [(DaemonSamples.unreachable, 10); (MoreSamples.fiveFailures, 20)]
              boot)
    as (H1 & _ & H3 & _ & H5 & _);
    [reflexivity|reflexivity|reflexivity|].
  split; [exact H1|]. split; [exact H3|exact H5].
Defined.

End DaemonProps.

(* ===================================================================== *)
(** ** Seeding the error log *)
(* ===================================================================== *)

Module SeedProps.
Import Js JsFacts ErrorMonitor ErrorMonitorSeed EventStoreFacts.

Lemma slice_last_app_again {A} (n : nat) (l l' : list A) :
  slice_last n (slice_last n l ++ l') = slice_last n (l ++ l').
Proof.
  unfold slice_last. rewrite !length_app, length_drop.
  destruct (decide (length l <= n)%nat) as [Hle|Hgt].
  - replace (length l - n)%nat with 0%nat by lia. rewrite drop_0.
    f_equal. lia.
  - replace (length l - (length l - n) + length l' - n)%nat
      with (length l')%nat by lia.
    replace (length l + length l' - n)%nat
      with ((length l - n) + length l')%nat by lia.
    rewrite <- drop_drop.
    rewrite (drop_app_le l l' (length l - n)) by lia. reflexivity.
Qed.

Lemma loadErrors_logError env error d :
  loadErrors (logError env error d).1.2
  = slice_last 1000 (loadErrors d ++ [makeEntry env error]).
Proof. unfold loadErrors at 1. now rewrite logError_errorsFile. Qed.

Lemma seedStep_eq draws errors d alerts i :
  seedStep draws (errors, d, alerts) i
  = (errors ++ [makeEntry (draw_env (draws i)) (seedInput (draws i))],
     (logError (draw_env (draws i)) (seedInput (draws i)) d).1.2,
     alerts ++ [(logError (draw_env (draws i)) (seedInput (draws i)) d).2]).
Proof.
  unfold seedStep, logError. now destruct (checkAlertThreshold _ _ _ _).
Qed.

Lemma seed_fold draws (indices : list nat) :
  forall errors d alerts saved,
    loadErrors d = slice_last 1000 saved ->
    let r := foldl (seedStep draws) (errors, d, alerts) indices in
    let entries :=
      List.map (fun i => makeEntry (draw_env (draws i)) (seedInput (draws i)))
        indices in
    r.1.1 = errors ++ entries
    /\ loadErrors r.1.2 = slice_last 1000 (saved ++ entries)
    /\ length r.2 = (length alerts + length indices)%nat.
Proof.
  induction indices as [|i indices IH]; intros errors d alerts saved Hd;
    cbv zeta.
  - simpl. rewrite !app_nil_r. repeat split; [assumption|lia].
  - cbn [foldl List.map]. rewrite seedStep_eq.
    pose proof (loadErrors_logError (draw_env (draws i)) (seedInput (draws i)) d)
      as Hstep.
    rewrite Hd, slice_last_app_again in Hstep.
    destruct (IH (errors ++ [makeEntry (draw_env (draws i)) (seedInput (draws i))])
                (logError (draw_env (draws i)) (seedInput (draws i)) d).1.2
                (alerts ++ [(logError (draw_env (draws i)) (seedInput (draws i)) d).2])
                (saved ++ [makeEntry (draw_env (draws i)) (seedInput (draws i))])
                Hstep) as (H1 & H2 & H3).
    cbv zeta in *. rewrite H1, H2, H3, <- !app_assoc, length_app. simpl.
    repeat split. lia.
Qed.

Lemma seeded_severity draw :
  In (Js.or_else (seed_severities !! draw_severity draw) ErrorSeverity_ERROR)
    ["error"; "warning"; "critical"].
Proof.
  destruct (draw_severity draw) as [|[|[|[|[|n]]]]]; simpl; auto.
Qed.

(** X21: seeding always reports 25, runs the alert check 25 times, and
    leaves a log that is the last 1000 entries of the old log followed by
    the 25 new entries in the order of their creation, so the log ends with
    the 25 new entries; each of them is unacknowledged and of severity
    error, warning or critical. *)
Theorem seeding_appends_25 (draws : nat -> SeedDraw) (d : Disk) :
  let '(count, d', alerts) := seedTestErrors draws d in
  count = 25%nat /\ length alerts = 25%nat
  /\ loadErrors d' = slice_last 1000 (loadErrors d ++ seeded draws)
  /\ seeded draws `suffix_of` loadErrors d'
  /\ length (loadErrors d') = Nat.min 1000 (length (loadErrors d) + 25)
  /\ Forall (fun e => acknowledged e = false
                      /\ In (severity e) ["error"; "warning"; "critical"])
       (seeded draws).
Proof.
  unfold seedTestErrors.
  change (seq 0 25) with (0%nat :: seq 1 24). cbn [foldl].
  rewrite seedStep_eq.
  pose proof (loadErrors_logError (draw_env (draws 0%nat)) (seedInput (draws 0%nat)) d)
    as Hstep.
  destruct (seed_fold draws (seq 1 24)
              ([] ++ [makeEntry (draw_env (draws 0%nat)) (seedInput (draws 0%nat))])
              (logError (draw_env (draws 0%nat)) (seedInput (draws 0%nat)) d).1.2
              ([] ++ [(logError (draw_env (draws 0%nat)) (seedInput (draws 0%nat)) d).2])
              _ Hstep) as (H1 & H2 & H3).
  cbv zeta in *.
  destruct (foldl (seedStep draws) _ (seq 1 24)) as [[errors d'] alerts].
  cbn [fst snd] in *.
  assert (seeded draws
          = [makeEntry (draw_env (draws 0%nat)) (seedInput (draws 0%nat))]
            ++ List.map (fun i => makeEntry (draw_env (draws i)) (seedInput (draws i)))
                 (seq 1 24)) as Hs by reflexivity.
  assert (length (seeded draws) = 25%nat) as Hlen.
  { unfold seeded. now rewrite length_map, length_seq. }
  rewrite <- app_assoc, <- Hs in H2.
  split. { rewrite H1. change ([] ++ ?l) with l. rewrite <- Hs. exact Hlen. }
  split. { rewrite H3, length_seq. reflexivity. }
  split; [exact H2|]. split.
  { rewrite H2. unfold slice_last. rewrite length_app, Hlen.
    exists (drop (length (loadErrors d) + 25 - 1000) (loadErrors d)).
    rewrite <- (drop_app_le (loadErrors d) (seeded draws)) by lia. reflexivity. }
  split. { rewrite H2, slice_last_length, length_app, Hlen. reflexivity. }
  unfold seeded. apply List.Forall_forall. intros e He.
  apply in_map_iff in He as (i & <- & _). split; [reflexivity|].
  apply seeded_severity.
Qed.

End SeedProps.

(* ===================================================================== *)
(** ** Counting workflow runs *)
(* ===================================================================== *)

Module BuildProps.
Import GitHub BuildMonitor.

Lemma is_str_other (x : option string) (a b : string) :
  is_str x a = true -> a <> b -> is_str x b = false.
Proof.
  destruct x as [v|]; [|discriminate]. simpl. intros H Hne.
  apply String.eqb_eq in H as ->. now apply String.eqb_neq.
Qed.

Lemma addRun_counts (s : BuildSummary) (run : Run) :
  let one (b : bool) := if b then 1%nat else 0%nat in
  total (addRun s run) = total s
  /\ runs (addRun s run) = runs s ++ [statusOf run]
  /\ pending (addRun s run) = (pending s + one (isPending run))%nat
  /\ success (addRun s run) = (success s + one (concluded "success" run))%nat
  /\ failure (addRun s run) = (failure s + one (concluded "failure" run))%nat
  /\ cancelled (addRun s run)
     = (cancelled s + one (concluded "cancelled" run))%nat
  /\ (one (isPending run) + one (concluded "success" run)
      + one (concluded "failure" run) + one (concluded "cancelled" run)
      <= 1)%nat.
Proof.
  cbv zeta. unfold concluded, isPending, addRun.
  destruct (String.eqb (run_status run) "in_progress"
            || String.eqb (run_status run) "queued");
    cbn [negb andb total success failure pending cancelled runs].
  { repeat split; lia. }
  destruct (is_str (run_conclusion run) "success") eqn:Es.
  { rewrite (is_str_other _ _ "failure" Es), (is_str_other _ _ "cancelled" Es)
      by discriminate.
    cbn [total success failure pending cancelled runs]. repeat split; lia. }
  destruct (is_str (run_conclusion run) "failure") eqn:Ef.
  { rewrite (is_str_other _ _ "cancelled" Ef) by discriminate.
    cbn [total success failure pending cancelled runs]. repeat split; lia. }
  destruct (is_str (run_conclusion run) "cancelled");
    cbn [total success failure pending cancelled runs]; repeat split; lia.
Qed.

Lemma length_filter_cons {A} (p : A -> bool) (x : A) (l : list A) :
  length (List.filter p (x :: l))
  = ((if p x then 1 else 0) + length (List.filter p l))%nat.
Proof. simpl. now destruct (p x). Qed.

Lemma fold_addRun (fetched : list Run) :
  forall s,
    let r := foldl addRun s fetched in
    total r = total s
    /\ runs r = runs s ++ List.map statusOf fetched
    /\ pending r = (pending s + length (List.filter isPending fetched))%nat
    /\ success r
       = (success s + length (List.filter (concluded "success") fetched))%nat
    /\ failure r
       = (failure s + length (List.filter (concluded "failure") fetched))%nat
    /\ cancelled r
       = (cancelled s + length (List.filter (concluded "cancelled") fetched))%nat
    /\ (length (List.filter isPending fetched)
        + length (List.filter (concluded "success") fetched)
        + length (List.filter (concluded "failure") fetched)
        + length (List.filter (concluded "cancelled") fetched)
        <= length fetched)%nat.
Proof.
  induction fetched as [|run fetched IH]; intros s; cbv zeta.
  - simpl. rewrite app_nil_r. repeat split; lia.
  - cbn [foldl List.map].
    destruct (IH (addRun s run)) as (H1 & H2 & H3 & H4 & H5 & H6 & H7).
    destruct (addRun_counts s run) as (A1 & A2 & A3 & A4 & A5 & A6 & A7).
    cbv zeta in *. rewrite !length_filter_cons.
    rewrite H1, H2, H3, H4, H5, H6, A1, A2, A3, A4, A5, A6, <- app_assoc.
    cbn [length]. repeat split; lia.
Qed.

Lemma getBuildStatus_counts (fetched : list Run) :
  exists summary,
    getBuildStatus (Daemon.Returns fetched) = Daemon.Returns summary
    /\ total summary = length fetched
    /\ runs summary = List.map statusOf fetched
    /\ pending summary = length (List.filter isPending fetched)
    /\ success summary = length (List.filter (concluded "success") fetched)
    /\ failure summary = length (List.filter (concluded "failure") fetched)
    /\ cancelled summary = length (List.filter (concluded "cancelled") fetched)
    /\ (success summary + failure summary + pending summary + cancelled summary
        <= total summary)%nat
    /\ forall msg, getBuildStatus (Daemon.Throws msg) = Daemon.Throws msg.
Proof.
  eexists. split; [reflexivity|].
  destruct (fold_addRun fetched
              {| total := length fetched; success := 0; failure := 0;
                 pending := 0; cancelled := 0; runs := [] |})
    as (H1 & H2 & H3 & H4 & H5 & H6 & H7).
  cbv zeta in *. cbn [total success failure pending cancelled runs] in *.
  repeat split; auto. lia.
Qed.

(** X22: the build summary lists every fetched run once, in order, and
    counts each run at most once: a run that is in progress or queued is
    pending whatever its conclusion, a finished run counts under its
    conclusion when that is success, failure or cancelled, and the four
    counters never add up to more than the total.  When the runs cannot be
    fetched the error is passed on. *)
Theorem build_summary_counts (fetched : list Run) :
  exists summary,
    getBuildStatus (Daemon.Returns fetched) = Daemon.Returns summary
    /\ total summary = length fetched
    /\ runs summary = List.map statusOf fetched
    /\ pending summary = length (List.filter isPending fetched)
    /\ success summary = length (List.filter (concluded "success") fetched)
    /\ failure summary = length (List.filter (concluded "failure") fetched)
    /\ cancelled summary = length (List.filter (concluded "cancelled") fetched)
    /\ (success summary + failure summary + pending summary + cancelled summary
        <= total summary)%nat
    /\ forall msg, getBuildStatus (Daemon.Throws msg) = Daemon.Throws msg.
Proof. exact (getBuildStatus_counts fetched). Qed.

Lemma filter_split_length {A} (p q : A -> bool) (l : list A) :
  length (List.filter q l)
  = (length (List.filter (fun x => negb (p x) && q x) l)
     + length (List.filter (fun x => p x && q x) l))%nat.
Proof.
  induction l as [|x l IH]; [reflexivity|]. simpl.
  destruct (p x), (q x); simpl; lia.
Qed.

(** X23: on the same list of runs, the failed-build count of the
    repository status (the number the daemon compares from poll to poll)
    is the failure count of the build summary plus the runs that are in
    progress or queued with conclusion failure; it is never more than the
    number of runs, and [hasFailingBuilds] answers true exactly when a
    finished run has conclusion failure. *)
Theorem failed_build_counts_agree {PR Issue : Type} (info : RepoInfo)
    (prs : list PR) (issues : list Issue) (release : option Release)
    (fetched : list Run) :
  let status := getRepoStatus info prs issues fetched release in
  exists summary,
    getBuildStatus (Daemon.Returns fetched) = Daemon.Returns summary
    /\ failedBuilds status
       = (failure summary
          + length (List.filter
                      (fun run => isPending run
                                  && is_str (run_conclusion run) "failure")
                      fetched))%nat
    /\ (failure summary <= failedBuilds status <= recentBuilds status)%nat
    /\ recentBuilds status = total summary
    /\ (hasFailingBuilds (Daemon.Returns fetched) = Daemon.Returns true
        <-> exists run, In run fetched /\ concluded "failure" run = true).
Proof.
  cbv zeta.
  destruct (getBuildStatus_counts fetched)
    as (summary & E & Ht & _ & _ & _ & Hf & _).
  exists summary. split; [exact E|].
  assert (failedBuilds (getRepoStatus info prs issues fetched release)
          = (failure summary
             + length (List.filter
                         (fun run => isPending run
                                     && is_str (run_conclusion run) "failure")
                         fetched))%nat) as Hsum.
  { rewrite Hf. unfold concluded. cbn [getRepoStatus failedBuilds].
    apply (filter_split_length isPending). }
  split; [exact Hsum|]. split; [split; [lia|]|split].
  - cbn [getRepoStatus failedBuilds recentBuilds]. apply List.filter_length_le.
  - now rewrite Ht.
  - unfold hasFailingBuilds. rewrite E, Hf. split.
    + intros H. injection H as H. apply Nat.ltb_lt in H.
      destruct (List.filter (concluded "failure") fetched) as [|run l] eqn:El;
        [simpl in H; lia|].
      exists run. apply List.filter_In. rewrite El. now left.
    + intros (run & Hin & Hc). f_equal. apply Nat.ltb_lt.
      assert (In run (List.filter (concluded "failure") fetched)) as H
        by now apply List.filter_In.
      destruct (List.filter (concluded "failure") fetched); [destruct H|].
      simpl. lia.
Qed.

End BuildProps.

(* ===================================================================== *)
(** ** The kind of an update *)
(* ===================================================================== *)

Module DepsProps.
Import Deps.

(** X24: for a latest version that is greater than the current one, the
    update type names the first of major, minor, patch in which the two
    differ, never none or unknown; with the shipped flags such an update
    is applied automatically exactly when the major version is the
    same. *)
Theorem update_type_of_newer_version (current latest : SemVer) :
  gt latest current = true ->
  getUpdateType (Some current) (Some latest)
  = (if negb (major latest =? major current)%nat then "major"
     else if negb (minor latest =? minor current)%nat then "minor"
     else "patch")
  /\ shouldAutoUpdate autoUpdate (getUpdateType (Some current) (Some latest))
     = (major latest =? major current)%nat.
Proof.
  unfold gt, getUpdateType. intros H.
  destruct (major current <? major latest)%nat eqn:E1.
  - apply Nat.ltb_lt in E1.
    assert ((major latest =? major current)%nat = false) as ->
      by (apply Nat.eqb_neq; lia).
    split; reflexivity.
  - apply Nat.ltb_ge in E1. cbn [orb] in H.
    apply andb_prop in H as [Hm H]. apply Nat.eqb_eq in Hm.
    assert ((major latest =? major current)%nat = true) as ->
      by (apply Nat.eqb_eq; lia).
    cbn [negb]. destruct (minor current <? minor latest)%nat eqn:E2.
    + apply Nat.ltb_lt in E2.
      assert ((minor latest =? minor current)%nat = false) as ->
        by (apply Nat.eqb_neq; lia).
      split; reflexivity.
    + cbn [orb] in H. apply andb_prop in H as [Hn H]. apply Nat.eqb_eq in Hn.
      assert ((minor latest =? minor current)%nat = true) as ->
        by (apply Nat.eqb_eq; lia).
      rewrite H. split; reflexivity.
Qed.

Lemma update_type_of_newer_version_witness :
  getUpdateType (Some {| major := 4; minor := 17; patch := 20 |})
                (Some {| major := 4; minor := 18; patch := 0 |}) = "minor"
  /\ shouldAutoUpdate autoUpdate "minor" = true.
Proof.
  destruct (update_type_of_newer_version
              {| major := 4; minor := 17; patch := 20 |}
              {| major := 4; minor := 18; patch := 0 |}) as [H1 H2];
    [reflexivity|].
  split; [exact H1|exact H2].
Defined.

End DepsProps.
